(** * nixos-rebuild-ng: reference resolution and repository discovery

    A shallow embedding of [nixos_rebuild/models.py]: the upward walks
    [discover_git] and [discover_closest_flake], the hostname probe
    [get_hostname] and the flake reference parser [Flake.parse], together
    with the parts of Python's [str], [re] and [pathlib] they rely on.

    Strings are Python [str] values restricted to code points below 256;
    a raised exception is an explicit [Raise] result. *)

From Stdlib Require Import String Ascii List Bool Arith Lia.
Import ListNotations.
Local Open Scope list_scope.
Local Open Scope string_scope.

(** ** Results and exceptions *)

(** The exception classes that the modelled code can meet. *)
Inductive exn : Type :=
| AssertionError (msg : string)
| AttributeError
| CalledProcessError
| IndexError
| ValueError
| RuntimeError
| OSError
| OtherError (name : string).

(** The result of running a piece of Python: a value, or a raised exception. *)
Inductive outcome (A : Type) : Type :=
| Ok (a : A)
| Raise (e : exn).
Arguments Ok {A} a.
Arguments Raise {A} e.

Definition bind {A B : Type} (c : outcome A) (k : A -> outcome B) : outcome B :=
  match c with
  | Ok a => k a
  | Raise e => Raise e
  end.

Notation "x <- c ;; k" := (bind c (fun x => k))
  (at level 61, c at next level, right associativity).

(** [try: body except (classes): handler] where [caught] says whether the
    exception is an instance of one of the listed classes. *)
Definition try_except {A : Type} (body : outcome A) (caught : exn -> bool)
    (handler : outcome A) : outcome A :=
  match body with
  | Ok a => Ok a
  | Raise e => if caught e then handler else Raise e
  end.

(** A step of a loop that is run with fuel: the value of [c] goes on to
    [k], an exception raised by [c] ends the loop.  [None] is kept for fuel
    that ran out. *)
Definition step {A B : Type} (c : outcome A) (k : A -> option (outcome B))
    : option (outcome B) :=
  match c with
  | Ok a => k a
  | Raise e => Some (Raise e)
  end.

Notation "x <~ c ;; k" := (step c (fun x => k))
  (at level 61, c at next level, right associativity).

(** [assert v is not None, msg] *)
Definition assert_not_None {A : Type} (v : option A) (msg : string) : outcome A :=
  match v with
  | Some a => Ok a
  | None => Raise (AssertionError msg)
  end.

(** ** Python strings *)

Module Str.

(** The character [U+0022]; [hash] is [U+0023]. *)
Definition dquote : ascii := "034"%char.
Definition hash : ascii := "#"%char.
Definition newline : ascii := "010"%char.

(** Truthiness of a string: non-empty. *)
Definition truthy (s : string) : bool :=
  match s with
  | EmptyString => false
  | String _ _ => true
  end.

(** [a or b] on strings. *)
Definition or_else (a b : string) : string :=
  if truthy a then a else b.

(** [s.startswith(prefix)] *)
Definition startswith (s pre : string) : bool := String.prefix pre s.

(** [s.endswith(suffix)] *)
Fixpoint endswith (s suf : string) : bool :=
  String.eqb s suf ||
  match s with
  | EmptyString => false
  | String _ s' => endswith s' suf
  end.

(** [sub in s] *)
Fixpoint contains (sub s : string) : bool :=
  String.prefix sub s ||
  match s with
  | EmptyString => false
  | String _ s' => contains sub s'
  end.

(** [c.isspace()] for code points below 256. *)
Definition isspace (c : ascii) : bool :=
  let n := nat_of_ascii c in
  ((9 <=? n)%nat && (n <=? 13)%nat) || ((28 <=? n)%nat && (n <=? 32)%nat)
  || (n =? 133)%nat || (n =? 160)%nat.

Fixpoint lstrip (s : string) : string :=
  match s with
  | EmptyString => EmptyString
  | String c s' => if isspace c then lstrip s' else s
  end.

Fixpoint rstrip (s : string) : string :=
  match s with
  | EmptyString => EmptyString
  | String c s' =>
      match rstrip s' with
      | EmptyString => if isspace c then EmptyString else String c EmptyString
      | r => String c r
      end
  end.

(** [s.strip()] *)
Definition strip (s : string) : string := rstrip (lstrip s).

Definition snoc (s : string) (c : ascii) : string := s ++ String c EmptyString.

(** [s.split(sep)] for a non-empty separator: a left-to-right scan for
    non-overlapping occurrences.  [skip] counts the characters of the
    occurrence found last that are still to be passed over, [cur] is the
    piece being collected. *)
Fixpoint split_scan (sep : string) (skip : nat) (cur : string) (s : string)
    : list string :=
  match s with
  | EmptyString => [cur]
  | String c s' =>
      match skip with
      | S k => split_scan sep k cur s'
      | O =>
          if String.prefix sep s
          then cur :: split_scan sep (String.length sep - 1) EmptyString s'
          else split_scan sep O (snoc cur c) s'
      end
  end.

Definition split (s sep : string) : list string := split_scan sep O EmptyString s.

(** [sep.join(parts)] *)
Definition join (sep : string) (parts : list string) : string :=
  String.concat sep parts.

(** [l[i]] *)
Definition index {A : Type} (l : list A) (i : nat) : outcome A :=
  match nth_error l i with
  | Some a => Ok a
  | None => Raise IndexError
  end.

End Str.

(** ** The regular expressions used: a backtracking matcher

    [Flake._re] is built from greedy character-class repetitions, an optional
    literal and the end anchor.  Each combinator takes the text still to be
    read and a continuation for the rest of the pattern; a greedy construct
    tries its longest alternative first and falls back on failure, as
    [re.match] does. *)

Module Re.

Section Matcher.
Variable R : Type.

(** [[cls]*]: [taken] is what the repetition has consumed so far. *)
Fixpoint star (cls : ascii -> bool) (s taken : string)
    (k : string -> string -> option R) : option R :=
  match s with
  | String c s' =>
      if cls c then
        match star cls s' (Str.snoc taken c) k with
        | Some r => Some r
        | None => k taken s
        end
      else k taken s
  | EmptyString => k taken s
  end.

(** [c?] *)
Definition opt (c : ascii) (s : string) (k : string -> option R) : option R :=
  match s with
  | String c' s' =>
      if Ascii.eqb c' c then
        match k s' with
        | Some r => Some r
        | None => k s
        end
      else k s
  | EmptyString => k s
  end.

(** [$] without [re.MULTILINE]: at the end of the text, or just before a
    newline that ends it. *)
Definition dollar (s : string) (k : option R) : option R :=
  match s with
  | EmptyString => k
  | String c EmptyString => if Ascii.eqb c Str.newline then k else None
  | _ => None
  end.
End Matcher.

Arguments star {R} cls s taken k.
Arguments opt {R} c s k.
Arguments dollar {R} s k.

End Re.


(** ** [pathlib] on POSIX

    A path is what [PurePosixPath] keeps after parsing: the root ([""],
    ["/"] or ["//"]; the drive is always empty) and the list of components.
    The functions follow the implementation of Python 3.12. *)

Module Pathlib.

Record PurePath : Type := mkPath { root : string; tail : list string }.

(** [posixpath.splitroot] without the (empty) drive. *)
Definition splitroot (p : string) : string * string :=
  match p with
  | String "/" (String "/" (String "/" r)) => ("/", String "/" (String "/" r))
  | String "/" (String "/" r) => ("//", r)
  | String "/" r => ("/", r)
  | _ => ("", p)
  end.

(** A component that [_parse_path] keeps: neither empty nor ["."]. *)
Definition kept (x : string) : bool := Str.truthy x && negb (String.eqb x ".").

(** [Path(s)] *)
Definition Path (s : string) : PurePath :=
  let '(r, rel) := splitroot s in
  mkPath r (filter kept (Str.split rel "/")).

Definition format_parsed_parts (r : string) (t : list string) : string :=
  if Str.truthy r then r ++ Str.join "/" t else Str.join "/" t.

(** [str(p)] *)
Definition str (p : PurePath) : string :=
  Str.or_else (format_parsed_parts (root p) (tail p)) ".".

(** [p == q]: paths compare by their text. *)
Definition eqb (p q : PurePath) : bool := String.eqb (str p) (str q).

(** [p.parts] *)
Definition parts (p : PurePath) : list string :=
  if Str.truthy (root p) then root p :: tail p else tail p.

(** [p.parent] *)
Definition parent (p : PurePath) : PurePath :=
  match tail p with
  | [] => p
  | _ => mkPath (root p) (removelast (tail p))
  end.

(** [p.parents], nearest first. *)
Definition parents (p : PurePath) : list PurePath :=
  let n := List.length (tail p) in
  map (fun idx => mkPath (root p) (firstn (n - idx - 1) (tail p))) (seq 0 n).

(** [posixpath.join(a, b)] *)
Definition posixpath_join (a b : string) : string :=
  if Str.startswith b "/" then b
  else if negb (Str.truthy a) || Str.endswith a "/" then a ++ b
  else a ++ "/" ++ b.

(** [posixpath.join] over all the segments; the empty text for none. *)
Definition posixpath_join_all (segments : list string) : string :=
  match segments with
  | [] => ""
  | a :: rest => fold_left posixpath_join rest a
  end.

(** [p.with_segments], applied to the segments. *)
Definition with_segments (segments : list string) : PurePath :=
  Path (posixpath_join_all segments).

(** [p / key] *)
Definition joinpath (p : PurePath) (key : string) : PurePath :=
  with_segments [str p; key].

(** [p.is_relative_to(other)] *)
Definition is_relative_to (p other : PurePath) : bool :=
  eqb other p || existsb (eqb other) (parents p).

(** [p.relative_to(other)], without [walk_up]. *)
Definition relative_to (p other : PurePath) : outcome PurePath :=
  if is_relative_to p other
  then Ok (with_segments (skipn (List.length (tail other)) (tail p)))
  else Raise ValueError.

(** What the operating system answers.  Every query takes the text of a
    path and may raise.  [realpath] is the text that [Path.resolve()]
    wraps, or the exception it raises (a symlink loop, an embedded null
    character).  [isdir] and [isfile] are [Path.is_dir()] and
    [Path.is_file()]: these answer [False] for a missing entry, but raise
    every other error of the underlying [stat], such as a refused
    permission or a name that is too long.  [read_text] is [open()]
    followed by [read()]. *)
Record FileSystem : Type := {
  realpath : string -> outcome string;
  isdir : string -> outcome bool;
  isfile : string -> outcome bool;
  read_text : string -> outcome string
}.

(** [p.resolve()] *)
Definition resolve (fs : FileSystem) (p : PurePath) : outcome PurePath :=
  s <- realpath fs (str p) ;; Ok (Path s).

(** [p.is_dir()] and [p.is_file()] *)
Definition is_dir (fs : FileSystem) (p : PurePath) : outcome bool :=
  isdir fs (str p).
Definition is_file (fs : FileSystem) (p : PurePath) : outcome bool :=
  isfile fs (str p).

(** [with p.open() as f: f.read()] *)
Definition read (fs : FileSystem) (p : PurePath) : outcome string :=
  read_text fs (str p).

End Pathlib.

Import Pathlib.

(** ** [models.py] *)

(** [current != previous], where [previous] starts as [None]. *)
Definition differs (current : PurePath) (previous : option PurePath) : bool :=
  match previous with
  | None => true
  | Some p => negb (Pathlib.eqb current p)
  end.

(** The [while] loop of [discover_git].  One unit of [fuel] pays for one
    run of the loop body; [None] means that the fuel ran out.  Each call
    of [is_dir], [is_file] and [read] may raise, which ends the walk. *)
Fixpoint discover_git_loop (fs : FileSystem) (fuel : nat)
    (current : PurePath) (previous : option PurePath)
    : option (outcome (option PurePath)) :=
  current_is_dir <~ is_dir fs current ;;
  if current_is_dir && differs current previous then
    match fuel with
    | O => None
    | S fuel' =>
        let dotgit := joinpath current ".git" in
        dotgit_is_dir <~ is_dir fs dotgit ;;
        if dotgit_is_dir then Some (Ok (Some current))
        else
          dotgit_is_file <~ is_file fs dotgit ;;
          if dotgit_is_file then
            text <~ read fs dotgit ;;
            let dotgit_content := Str.strip text in
            if Str.startswith dotgit_content "gitdir: " then
              Some (p <- Str.index (Str.split dotgit_content "gitdir: ") 1 ;;
                    Ok (Some (Path p)))
            else discover_git_loop fs fuel' (parent current) (Some current)
          else discover_git_loop fs fuel' (parent current) (Some current)
    end
  else Some (Ok None).

(** The number of loop-body runs that a walk from [current] can need: one
    per component, and one for the directory that is its own parent. *)
Definition walk_fuel (current : PurePath) : nat := S (List.length (tail current)).

(** The loop entered at [current] with the fuel of [walk_fuel]. *)
Definition discover_git_walk (fs : FileSystem)
    (current : PurePath) (previous : option PurePath)
    : outcome (option PurePath) :=
  match discover_git_loop fs (walk_fuel current) current previous with
  | Some r => r
  | None => Ok None
  end.

(** [discover_git(location)] *)
Definition discover_git (fs : FileSystem) (location : PurePath)
    : outcome (option PurePath) :=
  current <- resolve fs location ;;
  discover_git_walk fs current None.

(** The [while] loop of [discover_closest_flake], with fuel as above. *)
Fixpoint discover_closest_flake_loop (fs : FileSystem) (fuel : nat)
    (current : PurePath) (previous : option PurePath)
    : option (outcome (option PurePath)) :=
  current_is_dir <~ is_dir fs current ;;
  if current_is_dir && differs current previous then
    match fuel with
    | O => None
    | S fuel' =>
        let flake_file := joinpath current "flake.nix" in
        found <~ is_file fs flake_file ;;
        if found then Some (Ok (Some current))
        else discover_closest_flake_loop fs fuel' (parent current) (Some current)
    end
  else Some (Ok None).

Definition discover_closest_flake_walk (fs : FileSystem)
    (current : PurePath) (previous : option PurePath)
    : outcome (option PurePath) :=
  match discover_closest_flake_loop fs (walk_fuel current) current previous with
  | Some r => r
  | None => Ok None
  end.

(** [discover_closest_flake(location)] *)
Definition discover_closest_flake (fs : FileSystem) (location : PurePath)
    : outcome (option PurePath) :=
  current <- resolve fs location ;;
  discover_closest_flake_walk fs current None.

(** Modelled from the spec: [Remote] and [run_wrapper] come from
    [nixos_rebuild.process], which is not among the sources.  The remote
    facility runs a command, optionally on a remote host, and returns its
    captured standard output or raises.  A [Remote] is an ordinary object, so
    it is truthy; the captured output is absent when the result carries none,
    in which case calling [strip] on it raises [AttributeError]. *)
Record CompletedProcess : Type := { stdout : option string }.

Section Process.
Variable Remote : Type.

(** The machine the program runs on: [platform.node()] and the remote
    facility [run_wrapper(argv, capture_output=..., remote=...)]. *)
Record Host : Type := {
  node : string;
  run_wrapper : list string -> bool -> Remote -> outcome CompletedProcess
}.

(** The classes listed by the [except] clause of [get_hostname]. *)
Definition probe_failure (e : exn) : bool :=
  match e with
  | AttributeError | CalledProcessError => true
  | _ => false
  end.

(** [proc.stdout.strip()] *)
Definition stdout_strip (proc : CompletedProcess) : outcome string :=
  match stdout proc with
  | Some out => Ok (Str.strip out)
  | None => Raise AttributeError
  end.

(** [get_hostname(target_host)] *)
Definition get_hostname (host : Host) (target_host : option Remote)
    : outcome (option string) :=
  match target_host with
  | Some remote =>
      try_except
        (proc <- run_wrapper host ["uname"; "-n"] true remote ;;
         name <- stdout_strip proc ;;
         Ok (Some name))
        probe_failure
        (Ok None)
  | None => Ok (Some (node host))
  end.

End Process.

Arguments node {Remote} h.
Arguments run_wrapper {Remote} h argv capture_output remote.
Arguments get_hostname {Remote} host target_host.

(** The [path] field of a [Flake] holds a [Path] or a [str]. *)
Inductive path_or_str : Type :=
| PathV (p : PurePath)
| StrV (s : string).

(** The shapes of [flake_arg] that [Flake.from_arg] tells apart: a [str],
    [True], [False], and anything else ([None] among them). *)
Inductive flake_arg : Type :=
| ArgStr (s : string)
| ArgTrue
| ArgFalse
| ArgOther.

Module Flake.

Record t : Type := mk { path : path_or_str; attr : string }.

(** [_re.match(s)]: the groups [path] and [attr], or [None].  The pattern
    reads: a greedy run of characters other than [#] (group [path]), an
    optional [#], a greedy run of characters other than [#] and the double
    quote (group [attr]), and the end anchor. *)
Definition _re (s : string) : option (string * string) :=
  Re.star (fun c => negb (Ascii.eqb c Str.hash)) s ""
    (fun path rest =>
  Re.opt Str.hash rest
    (fun rest =>
  Re.star (fun c => negb (Ascii.eqb c Str.hash || Ascii.eqb c Str.dquote)) rest ""
    (fun attr rest =>
  Re.dollar rest (Some (path, attr))))).

(** [str(self.path)] *)
Definition path_text (p : path_or_str) : string :=
  match p with
  | PathV p => Pathlib.str p
  | StrV s => s
  end.

(** [__str__] *)
Definition __str__ (self : t) : string :=
  path_text (path self) ++ "#" ++ attr self.

(** [to_attr] *)
Definition to_attr (self : t) (attrs : list string) : string :=
  __str__ self ++ "." ++ Str.join "." attrs.

Section Parse.
Context {Remote : Type}.

(** [attr or get_hostname(target_host) or "default"]: the probe runs only
    when [attr] is empty. *)
Definition config_name (host : Host Remote) (attr : string)
    (target_host : option Remote) : outcome string :=
  if Str.truthy attr then Ok attr
  else
    hostname <- get_hostname host target_host ;;
    match hostname with
    | Some h => Ok (Str.or_else h "default")
    | None => Ok "default"
    end.

(** The f-string of [nixos_attr]: [nixosConfigurations.], then [name]
    between double quotes. *)
Definition quoted (name : string) : string :=
  "nixosConfigurations." ++ String Str.dquote (name ++ String Str.dquote "").

(** The [url] of a reference into the repository [git_repo]. *)
Definition repo_url (git_repo : PurePath) (flake_path : option PurePath)
    : outcome string :=
  let url := "git+file://" ++ Pathlib.str git_repo in
  match flake_path with
  | Some fp =>
      if negb (Pathlib.eqb fp git_repo) && is_relative_to fp git_repo
      then
        rel <- relative_to fp git_repo ;;
        Ok (url ++ "?dir=" ++ Pathlib.str rel)
      else Ok url
  | None => Ok url
  end.

(** [Flake.parse(flake_str, target_host)] *)
Definition parse (fs : FileSystem) (host : Host Remote) (flake_str : string)
    (target_host : option Remote) : outcome t :=
  m <- assert_not_None (_re flake_str) ("got no matches for " ++ flake_str) ;;
  let attr := snd m in
  name <- config_name host attr target_host ;;
  let nixos_attr := quoted name in
  let path_str := fst m in
  if Str.contains ":" path_str then Ok (mk (StrV path_str) nixos_attr)
  else
    let path := Path path_str in
    git_repo <- discover_git fs path ;;
    match git_repo with
    | Some git_repo =>
        flake_path <- discover_closest_flake fs path ;;
        url <- repo_url git_repo flake_path ;;
        Ok (mk (StrV url) nixos_attr)
    | None => Ok (mk (PathV path) nixos_attr)
    end.

(** [Flake.from_arg(flake_arg, target_host)].  [path_exists] answers
    [Path.exists()] from the text of a path, or raises as [is_dir] does. *)
Definition from_arg (fs : FileSystem) (path_exists : string -> outcome bool)
    (host : Host Remote) (flake_arg : flake_arg) (target_host : option Remote)
    : outcome (option t) :=
  match flake_arg with
  | ArgStr s => r <- parse fs host s target_host ;; Ok (Some r)
  | ArgTrue => r <- parse fs host "." target_host ;; Ok (Some r)
  | ArgFalse => Ok None
  | ArgOther =>
      let default_path := Path "/etc/nixos/flake.nix" in
      found <- path_exists (Pathlib.str default_path) ;;
      if found then
        default_path <- resolve fs default_path ;;
        r <- parse fs host (Pathlib.str (parent default_path)) target_host ;;
        Ok (Some r)
      else Ok None
  end.

End Parse.

End Flake.

(** ** The other value classes of [models.py] *)

Module NixOSRebuildError.

Record t : Type := mk { message : string }.

(** [__str__] *)
Definition __str__ (self : t) : string := "error: " ++ message self.

End NixOSRebuildError.

Module Action.

Inductive t : Type :=
| SWITCH | BOOT | TEST | BUILD | EDIT | REPL
| DRY_BUILD | DRY_RUN | DRY_ACTIVATE
| BUILD_IMAGE | BUILD_VM | BUILD_VM_WITH_BOOTLOADER
| LIST_GENERATIONS.

(** [a.value] *)
Definition value (a : t) : string :=
  match a with
  | SWITCH => "switch"
  | BOOT => "boot"
  | TEST => "test"
  | BUILD => "build"
  | EDIT => "edit"
  | REPL => "repl"
  | DRY_BUILD => "dry-build"
  | DRY_RUN => "dry-run"
  | DRY_ACTIVATE => "dry-activate"
  | BUILD_IMAGE => "build-image"
  | BUILD_VM => "build-vm"
  | BUILD_VM_WITH_BOOTLOADER => "build-vm-with-bootloader"
  | LIST_GENERATIONS => "list-generations"
  end.

(** [__str__] *)
Definition __str__ (self : t) : string := value self.

(** The members, in the order of their definition. *)
Definition members : list t :=
  [SWITCH; BOOT; TEST; BUILD; EDIT; REPL; DRY_BUILD; DRY_RUN; DRY_ACTIVATE;
   BUILD_IMAGE; BUILD_VM; BUILD_VM_WITH_BOOTLOADER; LIST_GENERATIONS].

(** [Action.values()] *)
Definition values : list string := map value members.

End Action.

Module BuildAttr.

Record t : Type := mk { path : path_or_str; attr : option string }.

(** Truthiness of a [str | None]. *)
Definition truthy (v : option string) : bool :=
  match v with
  | Some s => Str.truthy s
  | None => false
  end.

(** [to_attr]: the f-string puts [self.attr] and a dot first when
    [self.attr] is truthy. *)
Definition to_attr (self : t) (attrs : list string) : string :=
  (match attr self with
   | Some a => if Str.truthy a then a ++ "." else ""
   | None => ""
   end) ++ Str.join "." attrs.

(** [from_arg(attr, file)] *)
Definition from_arg (attr file : option string) : t :=
  if negb (truthy attr || truthy file) then mk (StrV "<nixpkgs/nixos>") None
  else
    mk (PathV (Path (match file with
                     | Some f => Str.or_else f "default.nix"
                     | None => "default.nix"
                     end)))
       attr.

End BuildAttr.

Module Generation.

Record t : Type := mk { id : nat; timestamp : string; current : bool }.

End Generation.

Module Profile.

Record t : Type := mk { name : string; path : PurePath }.

(** [Profile.from_arg(name)].  [mkdir] stands for
    [Path.mkdir(mode=0o755, parents=True, exist_ok=True)], called with the
    text of the directory; it returns nothing or raises. *)
Definition from_arg (mkdir : string -> outcome unit) (name : string) : outcome t :=
  if String.eqb name "system"
  then Ok (mk name (Path "/nix/var/nix/profiles/system"))
  else
    let path := joinpath (Path "/nix/var/nix/profiles/system-profiles") name in
    _ <- mkdir (Pathlib.str (parent path)) ;;
    Ok (mk name path).

End Profile.

(** ** Vocabulary of the statements *)

(** The character [c] occurs in [s]. *)
Fixpoint occurs (c : ascii) (s : string) : bool :=
  match s with
  | EmptyString => false
  | String c' s' => Ascii.eqb c' c || occurs c s'
  end.

(** Every character of [s] is in the class [cls]. *)
Fixpoint all_in (cls : ascii -> bool) (s : string) : bool :=
  match s with
  | EmptyString => true
  | String c s' => cls c && all_in cls s'
  end.

(** The longest prefix of [s] inside [cls], and what follows it. *)
Fixpoint span (cls : ascii -> bool) (s : string) : string * string :=
  match s with
  | EmptyString => (EmptyString, EmptyString)
  | String c s' =>
      if cls c then let '(a, b) := span cls s' in (String c a, b)
      else (EmptyString, s)
  end.

(** The two character classes of [Flake._re]. *)
Definition path_char (c : ascii) : bool := negb (Ascii.eqb c Str.hash).
Definition attr_char (c : ascii) : bool :=
  negb (Ascii.eqb c Str.hash || Ascii.eqb c Str.dquote).

(** What [Flake._re] is expected to compute: the text before the first [#],
    and the text after it when that text has neither [#] nor a double
    quote. *)
Definition split_spec (s : string) : option (string * string) :=
  let '(p, rest) := span path_char s in
  match rest with
  | EmptyString => Some (p, EmptyString)
  | String _ a => if all_in attr_char a then Some (p, a) else None
  end.

(** The part of [Flake._re] after the optional [#], for the [path] group
    [p]. *)
Definition attr_then_end (p : string) : string -> option (string * string) :=
  fun rest => Re.star attr_char rest ""
    (fun attr rest' => Re.dollar rest' (Some (p, attr))).


(** The loop test of both walks. *)
Definition walk_enters (fs : FileSystem) (current : PurePath)
    (previous : option PurePath) : outcome bool :=
  current_is_dir <- is_dir fs current ;;
  Ok (current_is_dir && differs current previous).

(** The body of the loop of [discover_git] at [current] ends without a
    [return]: [.git] is no directory, and it is no regular file either or
    its stripped text does not start with the key. *)
Definition git_passes (fs : FileSystem) (current : PurePath) : Prop :=
  is_dir fs (joinpath current ".git") = Ok false /\
  (is_file fs (joinpath current ".git") = Ok false \/
   (is_file fs (joinpath current ".git") = Ok true /\
    exists text, read fs (joinpath current ".git") = Ok text /\
                 Str.startswith (Str.strip text) "gitdir: " = false)).

(** [git_reaches fs current previous d pd]: the loop of [discover_git],
    entered with [current] and [previous], comes to test [d] with [pd] as
    the previous directory. *)
Inductive git_reaches (fs : FileSystem)
    : PurePath -> option PurePath -> PurePath -> option PurePath -> Prop :=
| reaches_start current previous :
    git_reaches fs current previous current previous
| reaches_up current previous d pd :
    walk_enters fs current previous = Ok true ->
    git_passes fs current ->
    git_reaches fs (parent current) (Some current) d pd ->
    git_reaches fs current previous d pd.

(** ** Example environments *)

Definition lookup (s : string) (l : list (string * string)) : option string :=
  option_map snd (find (fun kv => String.eqb s (fst kv)) l).

(** A file system given by the absolute directories and the regular files
    with their text; a relative path is taken from [cwd]. *)
Definition listed_fs (cwd : string) (dirs : list string)
    (files : list (string * string)) : FileSystem :=
  {| realpath := fun s =>
       Ok (if Str.startswith s "/" then s
           else if String.eqb s "." then cwd
           else cwd ++ "/" ++ s);
     isdir := fun s => Ok (existsb (String.eqb s) dirs);
     isfile := fun s =>
       Ok (match lookup s files with Some _ => true | None => false end);
     read_text := fun s =>
       match lookup s files with Some text => Ok text | None => Raise OSError end |}.

(** A linked worktree at [/wt], its pointer file written as git does. *)
Definition fs_worktree : FileSystem :=
  listed_fs "/wt/src" ["/"; "/wt"; "/wt/src"]
    [("/wt/.git", "gitdir: /elsewhere/.git")].

(** The same tree with the key spelled [gidref]. *)
Definition fs_gidref : FileSystem :=
  listed_fs "/wt/src" ["/"; "/wt"; "/wt/src"]
    [("/wt/.git", "gidref: /elsewhere/.git")].

(** A repository at [/outer]; below it a directory whose [.git] is a file
    of unexpected content. *)
Definition fs_garbled : FileSystem :=
  listed_fs "/outer/inner" ["/"; "/outer"; "/outer/.git"; "/outer/inner"]
    [("/outer/inner/.git", "not a pointer")].

(** A repository at [/r] with its manifest in [/r/sub/dir]. *)
Definition fs_monorepo : FileSystem :=
  listed_fs "/r/sub/dir" ["/"; "/r"; "/r/.git"; "/r/sub"; "/r/sub/dir"]
    [("/r/sub/dir/flake.nix", "{ }")].

(** A host called [box] on which every remote probe exits non-zero. *)
Definition host_box : Host unit :=
  {| node := "box"; run_wrapper := fun _ _ _ => Raise CalledProcessError |}.

(** A host without a name whose remote probes report [web1]. *)
Definition host_nameless : Host unit :=
  {| node := "";
     run_wrapper := fun _ _ _ => Ok {| stdout := Some "web1
" |} |}.

(** ** Well-formed paths *)

Definition slash : ascii := "/"%char.

(** A component as [Path] produces it: kept, and free of [/]. *)
Definition component (x : string) : bool := kept x && negb (occurs slash x).

(** The shape of every path built by [Path]: one of the three roots, and
    components only. *)
Definition well_formed (p : PurePath) : Prop :=
  (root p = "" \/ root p = "/" \/ root p = "//")
  /\ forallb component (tail p) = true.

(** ** Ancestors *)

(** The directory [n] levels above [p]: [parent] taken [n] times. *)
Fixpoint up (n : nat) (p : PurePath) : PurePath :=
  match n with
  | O => p
  | S n' => up n' (parent p)
  end.

(** The body of the loop of [discover_git] at [d] returns [R]: [d] itself
    when [.git] is a directory; the path written after the key when [.git]
    is a regular file that starts with it. *)
Definition git_found (fs : FileSystem) (d R : PurePath) : Prop :=
  (is_dir fs (joinpath d ".git") = Ok true /\ R = d)
  \/ (is_dir fs (joinpath d ".git") = Ok false
      /\ is_file fs (joinpath d ".git") = Ok true
      /\ exists text p rest,
           read fs (joinpath d ".git") = Ok text
           /\ Str.startswith (Str.strip text) "gitdir: " = true
           /\ Str.split (Str.strip text) "gitdir: " = "" :: p :: rest
           /\ R = Path p).

(** A repository at [/r] with its manifest at the root, entered two
    levels below. *)
Definition fs_rootflake : FileSystem :=
  listed_fs "/r/sub/dir" ["/"; "/r"; "/r/.git"; "/r/sub"; "/r/sub/dir"]
    [("/r/flake.nix", "{ }")].

(** A file system on which nothing can be resolved. *)
Definition fs_loop : FileSystem :=
  {| realpath := fun _ => Raise RuntimeError;
     isdir := fun _ => Ok false;
     isfile := fun _ => Ok false;
     read_text := fun _ => Raise OSError |}.

(** A host on which the remote facility itself cannot be started. *)
Definition host_unreachable : Host unit :=
  {| node := "box"; run_wrapper := fun _ _ _ => Raise OSError |}.

(** A [mkdir] that always succeeds, and one that is refused. *)
Definition mkdir_ok : string -> outcome unit := fun _ => Ok tt.
Definition mkdir_denied : string -> outcome unit := fun _ => Raise OSError.

(** A host whose remote probes answer with white space only. *)
Definition host_blank : Host unit :=
  {| node := "box";
     run_wrapper := fun _ _ _ => Ok {| stdout := Some "   " |} |}.

(** The directory of the named profiles. *)
Definition profiles_dir : string := "/nix/var/nix/profiles/system-profiles".

(** The tree of [fs_rootflake] in which the directory [/r/sub] cannot be
    searched: asking about an entry inside it is refused. *)
Definition fs_locked : FileSystem :=
  {| realpath := realpath fs_rootflake;
     isdir := isdir fs_rootflake;
     isfile := fun s =>
       if String.eqb s "/r/sub/flake.nix" then Raise OSError
       else isfile fs_rootflake s;
     read_text := read_text fs_rootflake |}.
(** * Strings *)

Lemma append_nil_r (s : string) : s ++ "" = s.
Proof. induction s; simpl; congruence. Qed.

Lemma append_assoc (a b c : string) : (a ++ b) ++ c = a ++ (b ++ c).
Proof. induction a; simpl; congruence. Qed.

Lemma snoc_append (a : string) (c : ascii) (b : string) :
  Str.snoc a c ++ b = a ++ String c b.
Proof. unfold Str.snoc. now rewrite append_assoc. Qed.

Lemma occurs_append c a b : occurs c (a ++ b) = occurs c a || occurs c b.
Proof. induction a as [|d a IH]; simpl; [reflexivity|]. now rewrite IH, orb_assoc. Qed.

Lemma span_append cls s : fst (span cls s) ++ snd (span cls s) = s.
Proof.
  induction s as [|c s IH]; simpl; [reflexivity|].
  destruct (cls c); [|reflexivity].
  destruct (span cls s) as [a b]. simpl in *. now rewrite IH.
Qed.

Lemma span_all_in cls s : all_in cls (fst (span cls s)) = true.
Proof.
  induction s as [|c s IH]; simpl; [reflexivity|].
  destruct (cls c) eqn:E; [|reflexivity].
  destruct (span cls s) as [a b]. simpl in *. now rewrite E.
Qed.

Lemma span_rest cls s c r : snd (span cls s) = String c r -> cls c = false.
Proof.
  induction s as [|d s IH]; simpl; [discriminate|].
  destruct (cls d) eqn:E.
  - destruct (span cls s) as [a b]. simpl in *. exact IH.
  - simpl. intros H. now inversion H; subst.
Qed.

Lemma span_all cls s : all_in cls s = true -> span cls s = (s, "").
Proof.
  induction s as [|c s IH]; simpl; [reflexivity|].
  destruct (cls c); simpl; [|discriminate].
  intros H. now rewrite (IH H).
Qed.

(** * The matcher *)

Section StarFacts.
Context {R : Type}.
Variable cls : ascii -> bool.
Variable k : string -> string -> option R.

(** The greedy alternative wins when the rest of the pattern accepts it. *)
Lemma star_greedy s taken r :
  k (taken ++ fst (span cls s)) (snd (span cls s)) = Some r ->
  Re.star cls s taken k = Some r.
Proof.
  revert taken. induction s as [|c s IH]; intros taken; simpl.
  - now rewrite append_nil_r.
  - destruct (cls c).
    + destruct (span cls s) as [a b] eqn:E. simpl in *.
      intros H. rewrite (IH (Str.snoc taken c)); [reflexivity|].
      now rewrite snoc_append.
    + simpl. now rewrite append_nil_r.
Qed.

(** The repetition fails when the rest of the pattern refuses every
    prefix inside the class. *)
Lemma star_none s taken :
  (forall a b, s = a ++ b -> all_in cls a = true -> k (taken ++ a) b = None) ->
  Re.star cls s taken k = None.
Proof.
  revert taken. induction s as [|c s IH]; intros taken H; simpl.
  - specialize (H "" "" eq_refl eq_refl). now rewrite append_nil_r in H.
  - assert (H0 : k taken (String c s) = None).
    { specialize (H "" (String c s) eq_refl eq_refl). now rewrite append_nil_r in H. }
    destruct (cls c) eqn:E; [|exact H0].
    rewrite IH; [exact H0|].
    intros a b -> Ha. rewrite snoc_append.
    apply H; [reflexivity|]. simpl. now rewrite E.
Qed.
End StarFacts.

Lemma all_in_append cls a b :
  all_in cls (a ++ b) = all_in cls a && all_in cls b.
Proof. induction a as [|c a IH]; simpl; [reflexivity|]. now rewrite IH, andb_assoc. Qed.

(** A prefix inside the class is a prefix of the longest one. *)
Lemma span_prefix cls a b :
  all_in cls a = true ->
  span cls (a ++ b) = (a ++ fst (span cls b), snd (span cls b)).
Proof.
  induction a as [|c a IH]; simpl.
  - intros _. now destruct (span cls b).
  - destruct (cls c); simpl; [|discriminate].
    intros H. now rewrite (IH H).
Qed.

Lemma dollar_some {R} (b : string) (v r : option R) :
  Re.dollar b v = r -> r <> None -> all_in attr_char b = true.
Proof.
  destruct b as [|c [|d b]]; simpl; intros <- H; try reflexivity; try congruence.
  destruct (Ascii.eqb_spec c Str.newline) as [->|]; [reflexivity|congruence].
Qed.

Lemma attr_then_end_none p x :
  all_in attr_char x = false -> attr_then_end p x = None.
Proof.
  intros H. apply star_none. intros a b -> Ha.
  rewrite all_in_append, Ha in H. simpl in H.
  destruct (Re.dollar b (Some (p, "" ++ a))) eqn:E; [|reflexivity].
  apply dollar_some in E; congruence.
Qed.

Lemma attr_then_end_all p x :
  all_in attr_char x = true -> attr_then_end p x = Some (p, x).
Proof.
  intros H. apply star_greedy. now rewrite (span_all _ _ H).
Qed.

Lemma path_char_false c : path_char c = false -> c = Str.hash.
Proof.
  unfold path_char. destruct (Ascii.eqb_spec c Str.hash); [easy|discriminate].
Qed.

Lemma attr_char_hash : attr_char Str.hash = false.
Proof. reflexivity. Qed.

Lemma attr_path_char c : attr_char c = true -> path_char c = true.
Proof. unfold attr_char, path_char. now destruct (Ascii.eqb c Str.hash). Qed.

(** [Flake._re] computes [split_spec]. *)
Lemma _re_spec s : Flake._re s = split_spec s.
Proof.
  unfold Flake._re, split_spec.
  change (fun c => negb (Ascii.eqb c Str.hash)) with path_char.
  change (fun path rest => Re.opt Str.hash rest (fun rest0 =>
            Re.star (fun c => negb (Ascii.eqb c Str.hash || Ascii.eqb c Str.dquote))
              rest0 "" (fun attr rest1 => Re.dollar rest1 (Some (path, attr)))))
    with (fun path rest => Re.opt Str.hash rest (attr_then_end path)).
  destruct (span path_char s) as [p rest] eqn:E.
  assert (Hs : s = p ++ rest) by (now rewrite <- (span_append path_char s), E).
  assert (Hp : all_in path_char p = true)
    by (now generalize (span_all_in path_char s); rewrite E).
  destruct rest as [|c a].
  - apply star_greedy. rewrite E. reflexivity.
  - assert (c = Str.hash) as ->.
    { apply path_char_false. apply (span_rest path_char s c a). now rewrite E. }
    destruct (all_in attr_char a) eqn:Ha.
    + apply star_greedy. rewrite E. simpl.
      now rewrite (attr_then_end_all _ _ Ha).
    + apply star_none. intros a0 b0 H0 Ha0. simpl.
      assert (Hb0 : exists p', b0 = p' ++ String Str.hash a /\ all_in path_char p' = true).
      { pose proof (span_prefix path_char a0 b0 Ha0) as Hsp.
        rewrite <- H0, E in Hsp. inversion Hsp as [[Hp' Hr]].
        exists (fst (span path_char b0)). split.
        - rewrite Hr. symmetry. apply span_append.
        - apply span_all_in. }
      destruct Hb0 as (p' & -> & Hp').
      assert (Hbad : forall q, attr_then_end q (p' ++ String Str.hash a) = None).
      { intros q. apply attr_then_end_none.
        rewrite all_in_append. simpl. apply andb_false_r. }
      destruct p' as [|d p']; simpl.
      * rewrite (attr_then_end_none _ _ Ha). apply (Hbad a0).
      * simpl in Hp'. apply andb_prop in Hp'. destruct Hp' as [Hd _].
        unfold path_char in Hd. apply negb_true_iff in Hd. rewrite Hd.
        apply (Hbad a0).
Qed.

(** * Paths *)

Lemma path_eqb_refl (p : PurePath) : Pathlib.eqb p p = true.
Proof. apply String.eqb_refl. Qed.

Lemma differs_self (p : PurePath) : differs p (Some p) = false.
Proof. simpl. now rewrite path_eqb_refl. Qed.

Lemma parent_of_top (p : PurePath) : tail p = [] -> parent p = p.
Proof. unfold parent. now intros ->. Qed.

Lemma removelast_length {A : Type} (l : list A) :
  List.length (removelast l) = pred (List.length l).
Proof.
  rewrite removelast_firstn_len, length_firstn. lia.
Qed.

Lemma parent_tail_length (p : PurePath) :
  List.length (tail (parent p)) = pred (List.length (tail p)).
Proof.
  unfold parent. destruct (tail p) as [|x l] eqn:E.
  - now rewrite E.
  - cbn [tail]. apply removelast_length.
Qed.

Lemma walk_fuel_parent (p : PurePath) :
  tail p <> [] -> walk_fuel p = S (walk_fuel (parent p)).
Proof.
  unfold walk_fuel. rewrite parent_tail_length.
  destruct (tail p); [congruence|reflexivity].
Qed.

Lemma parts_length_absolute (p : PurePath) :
  root p <> "" -> List.length (parts p) = walk_fuel p.
Proof.
  unfold parts, walk_fuel. destruct (root p); [congruence|reflexivity].
Qed.

(** * The upward walks end *)

Section Walks.
Variable fs : FileSystem.

(** A directory that is its own parent is left at once: the loop test
    [current != previous] fails, whatever fuel remains.  Only the test
    [is_dir] itself can still raise. *)
Lemma git_loop_fixed_point fuel (p : PurePath) :
  tail p = [] ->
  discover_git_loop fs fuel (parent p) (Some p)
  = Some (_ <- is_dir fs p ;; Ok None).
Proof.
  intros H. rewrite (parent_of_top p H).
  destruct fuel; simpl; destruct (is_dir fs p) as [[|]|e]; cbn [step bind];
    rewrite ?path_eqb_refl; reflexivity.
Qed.

Lemma flake_loop_fixed_point fuel (p : PurePath) :
  tail p = [] ->
  discover_closest_flake_loop fs fuel (parent p) (Some p)
  = Some (_ <- is_dir fs p ;; Ok None).
Proof.
  intros H. rewrite (parent_of_top p H).
  destruct fuel; simpl; destruct (is_dir fs p) as [[|]|e]; cbn [step bind];
    rewrite ?path_eqb_refl; reflexivity.
Qed.

(** More fuel than components is enough. *)
Lemma git_loop_enough fuel :
  forall current previous,
    List.length (tail current) < fuel ->
    exists r, discover_git_loop fs fuel current previous = Some r.
Proof.
  induction fuel as [|fuel IH]; intros current previous Hlen; [lia|].
  assert (Hup : exists r,
             discover_git_loop fs fuel (parent current) (Some current) = Some r).
  { destruct (tail current) as [|x l] eqn:E.
    - eexists. now apply git_loop_fixed_point.
    - apply IH. rewrite parent_tail_length, E. simpl in *. lia. }
  simpl.
  destruct (is_dir fs current) as [d|e]; cbn [step]; [|eauto].
  destruct (d && differs current previous); [|eauto].
  destruct (is_dir fs (joinpath current ".git")) as [[|]|e]; cbn [step];
    [eauto| |eauto].
  destruct (is_file fs (joinpath current ".git")) as [[|]|e]; cbn [step];
    [|exact Hup|eauto].
  destruct (read fs (joinpath current ".git")) as [text|e]; cbn [step]; [|eauto].
  destruct (Str.startswith (Str.strip text) "gitdir: "); [eauto|exact Hup].
Qed.

Lemma flake_loop_enough fuel :
  forall current previous,
    List.length (tail current) < fuel ->
    exists r, discover_closest_flake_loop fs fuel current previous = Some r.
Proof.
  induction fuel as [|fuel IH]; intros current previous Hlen; [lia|].
  assert (Hup : exists r,
             discover_closest_flake_loop fs fuel (parent current) (Some current)
             = Some r).
  { destruct (tail current) as [|x l] eqn:E.
    - eexists. now apply flake_loop_fixed_point.
    - apply IH. rewrite parent_tail_length, E. simpl in *. lia. }
  simpl.
  destruct (is_dir fs current) as [d|e]; cbn [step]; [|eauto].
  destruct (d && differs current previous); [|eauto].
  destruct (is_file fs (joinpath current "flake.nix")) as [[|]|e]; cbn [step];
    [eauto|exact Hup|eauto].
Qed.

(** Fuel that was enough stays enough, with the same result. *)
Lemma git_loop_more_fuel fuel :
  forall fuel' current previous r,
    discover_git_loop fs fuel current previous = Some r ->
    fuel <= fuel' ->
    discover_git_loop fs fuel' current previous = Some r.
Proof.
  induction fuel as [|fuel IH]; intros fuel' current previous r.
  - simpl. destruct (is_dir fs current) as [d|e] eqn:Ed; cbn [step].
    + destruct (d && differs current previous) eqn:E; [discriminate|].
      intros H _. destruct fuel'; simpl; rewrite Ed; cbn [step]; now rewrite E.
    + intros H _. destruct fuel'; simpl; rewrite Ed; exact H.
  - intros H Hle. destruct fuel' as [|fuel']; [lia|].
    simpl in *.
    destruct (is_dir fs current) as [d|e]; cbn [step] in *; [|exact H].
    destruct (d && differs current previous); [|exact H].
    destruct (is_dir fs (joinpath current ".git")) as [[|]|e]; cbn [step] in *;
      [exact H| |exact H].
    destruct (is_file fs (joinpath current ".git")) as [[|]|e]; cbn [step] in *;
      [|apply IH; [exact H|lia]|exact H].
    destruct (read fs (joinpath current ".git")) as [text|e]; cbn [step] in *;
      [|exact H].
    destruct (Str.startswith (Str.strip text) "gitdir: "); [exact H|].
    apply IH; [exact H|lia].
Qed.

Lemma flake_loop_more_fuel fuel :
  forall fuel' current previous r,
    discover_closest_flake_loop fs fuel current previous = Some r ->
    fuel <= fuel' ->
    discover_closest_flake_loop fs fuel' current previous = Some r.
Proof.
  induction fuel as [|fuel IH]; intros fuel' current previous r.
  - simpl. destruct (is_dir fs current) as [d|e] eqn:Ed; cbn [step].
    + destruct (d && differs current previous) eqn:E; [discriminate|].
      intros H _. destruct fuel'; simpl; rewrite Ed; cbn [step]; now rewrite E.
    + intros H _. destruct fuel'; simpl; rewrite Ed; exact H.
  - intros H Hle. destruct fuel' as [|fuel']; [lia|].
    simpl in *.
    destruct (is_dir fs current) as [d|e]; cbn [step] in *; [|exact H].
    destruct (d && differs current previous); [|exact H].
    destruct (is_file fs (joinpath current "flake.nix")) as [[|]|e];
      cbn [step] in *; [exact H|apply IH; [exact H|lia]|exact H].
Qed.

(** The walk from [current] is the loop run with any sufficient fuel. *)
Lemma git_walk_fuel fuel current previous :
  List.length (tail current) < fuel ->
  discover_git_loop fs fuel current previous
  = Some (discover_git_walk fs current previous).
Proof.
  intros Hlen. unfold discover_git_walk.
  destruct (git_loop_enough (walk_fuel current) current previous) as [r Hr];
    [unfold walk_fuel; lia|].
  rewrite Hr. apply (git_loop_more_fuel _ _ _ _ _ Hr). unfold walk_fuel. lia.
Qed.

Lemma flake_walk_fuel fuel current previous :
  List.length (tail current) < fuel ->
  discover_closest_flake_loop fs fuel current previous
  = Some (discover_closest_flake_walk fs current previous).
Proof.
  intros Hlen. unfold discover_closest_flake_walk.
  destruct (flake_loop_enough (walk_fuel current) current previous) as [r Hr];
    [unfold walk_fuel; lia|].
  rewrite Hr. apply (flake_loop_more_fuel _ _ _ _ _ Hr). unfold walk_fuel. lia.
Qed.

(** The walk one level up, seen from the loop body at [current]. *)
Lemma git_loop_up current :
  discover_git_loop fs (List.length (tail current)) (parent current) (Some current)
  = Some (discover_git_walk fs (parent current) (Some current)).
Proof.
  destruct (tail current) as [|x l] eqn:E.
  - rewrite git_loop_fixed_point by exact E.
    unfold discover_git_walk. now rewrite git_loop_fixed_point by exact E.
  - apply git_walk_fuel. rewrite parent_tail_length, E. simpl. lia.
Qed.

Lemma flake_loop_up current :
  discover_closest_flake_loop fs (List.length (tail current)) (parent current)
    (Some current)
  = Some (discover_closest_flake_walk fs (parent current) (Some current)).
Proof.
  destruct (tail current) as [|x l] eqn:E.
  - rewrite flake_loop_fixed_point by exact E.
    unfold discover_closest_flake_walk.
    now rewrite flake_loop_fixed_point by exact E.
  - apply flake_walk_fuel. rewrite parent_tail_length, E. simpl. lia.
Qed.

(** The loops, unrolled once. *)
Lemma discover_git_walk_unfold current previous :
  discover_git_walk fs current previous =
  (current_is_dir <- is_dir fs current ;;
   if current_is_dir && differs current previous then
     let dotgit := joinpath current ".git" in
     dotgit_is_dir <- is_dir fs dotgit ;;
     if dotgit_is_dir then Ok (Some current)
     else
       dotgit_is_file <- is_file fs dotgit ;;
       if dotgit_is_file then
         text <- read fs dotgit ;;
         let dotgit_content := Str.strip text in
         if Str.startswith dotgit_content "gitdir: " then
           p <- Str.index (Str.split dotgit_content "gitdir: ") 1 ;;
           Ok (Some (Path p))
         else discover_git_walk fs (parent current) (Some current)
       else discover_git_walk fs (parent current) (Some current)
   else Ok None).
Proof.
  unfold discover_git_walk at 1. unfold walk_fuel.
  cbn [discover_git_loop]. rewrite git_loop_up. cbv zeta.
  destruct (is_dir fs current) as [d|e]; cbn [step bind]; [|reflexivity].
  destruct (d && differs current previous); [|reflexivity].
  destruct (is_dir fs (joinpath current ".git")) as [[|]|e]; cbn [step bind];
    try reflexivity.
  destruct (is_file fs (joinpath current ".git")) as [[|]|e]; cbn [step bind];
    try reflexivity.
  destruct (read fs (joinpath current ".git")) as [text|e]; cbn [step bind];
    [|reflexivity].
  destruct (Str.startswith (Str.strip text) "gitdir: "); reflexivity.
Qed.

Lemma discover_closest_flake_walk_unfold current previous :
  discover_closest_flake_walk fs current previous =
  (current_is_dir <- is_dir fs current ;;
   if current_is_dir && differs current previous then
     found <- is_file fs (joinpath current "flake.nix") ;;
     if found then Ok (Some current)
     else discover_closest_flake_walk fs (parent current) (Some current)
   else Ok None).
Proof.
  unfold discover_closest_flake_walk at 1. unfold walk_fuel.
  cbn [discover_closest_flake_loop]. rewrite flake_loop_up. cbv zeta.
  destruct (is_dir fs current) as [d|e]; cbn [step bind]; [|reflexivity].
  destruct (d && differs current previous); [|reflexivity].
  destruct (is_file fs (joinpath current "flake.nix")) as [[|]|e];
    cbn [step bind]; reflexivity.
Qed.

End Walks.

(** * Paths and their text *)

Lemma slash_scan_step (c : ascii) (s cur : string) :
  Str.split_scan "/" 0 cur (String c s) =
  if Ascii.eqb c slash then cur :: Str.split_scan "/" 0 "" s
  else Str.split_scan "/" 0 (Str.snoc cur c) s.
Proof.
  cbn [Str.split_scan String.prefix]. unfold slash.
  destruct (ascii_dec "/" c) as [<-|Hne]; [now destruct s|].
  destruct (Ascii.eqb_spec c "/"); [congruence|reflexivity].
Qed.

(** A stretch without [/] goes to the piece being collected. *)
Lemma slash_scan_piece (x rest cur : string) :
  occurs slash x = false ->
  Str.split_scan "/" 0 cur (x ++ rest) = Str.split_scan "/" 0 (cur ++ x) rest.
Proof.
  revert cur. induction x as [|c x IH]; intros cur H.
  - now rewrite append_nil_r.
  - simpl in H. apply orb_false_elim in H. destruct H as [Hc Hx].
    change (String c x ++ rest) with (String c (x ++ rest)).
    rewrite slash_scan_step, Hc, (IH _ Hx). now rewrite snoc_append.
Qed.

Lemma component_no_slash (x : string) : component x = true -> occurs slash x = false.
Proof.
  unfold component. intros H. apply andb_prop in H. destruct H as [_ H].
  now apply negb_true_iff in H.
Qed.

Lemma component_kept (x : string) : component x = true -> kept x = true.
Proof. unfold component. intros H. now apply andb_prop in H. Qed.

(** Splitting undoes joining. *)
Lemma slash_scan_join (xs : list string) :
  forall x cur,
    forallb component (x :: xs) = true ->
    Str.split_scan "/" 0 cur (Str.join "/" (x :: xs)) = (cur ++ x) :: xs.
Proof.
  unfold Str.join.
  induction xs as [|y ys IH]; intros x cur H; simpl in H;
    apply andb_prop in H; destruct H as [Hx Hxs].
  - cbn [String.concat]. rewrite <- (append_nil_r x) at 1.
    now rewrite slash_scan_piece by now apply component_no_slash.
  - change (String.concat "/" (x :: y :: ys))
      with (x ++ String slash (String.concat "/" (y :: ys))).
    rewrite slash_scan_piece by now apply component_no_slash.
    rewrite slash_scan_step, Ascii.eqb_refl. f_equal.
    now rewrite (IH y "" Hxs).
Qed.

Lemma split_join (xs : list string) :
  forallb component xs = true ->
  filter kept (Str.split (Str.join "/" xs) "/") = xs.
Proof.
  destruct xs as [|x xs]; [reflexivity|]. intros H.
  unfold Str.split. rewrite (slash_scan_join xs x "" H).
  change ("" ++ x) with x.
  assert (Hk : forallb kept (x :: xs) = true).
  { revert H. generalize (x :: xs). intros l. induction l as [|z l IH]; simpl;
      [reflexivity|].
    intros Hz. apply andb_prop in Hz. destruct Hz as [Hz Hl].
    now rewrite (component_kept _ Hz), (IH Hl). }
  revert Hk. generalize (x :: xs). intros l. induction l as [|z l IH]; simpl;
    [reflexivity|].
  intros Hz. apply andb_prop in Hz. destruct Hz as [Hz Hl].
  now rewrite Hz, (IH Hl).
Qed.

(** The pieces of a split hold no [/]. *)
Lemma slash_scan_pieces (s : string) :
  forall cur,
    occurs slash cur = false ->
    forallb (fun x => negb (occurs slash x)) (Str.split_scan "/" 0 cur s) = true.
Proof.
  induction s as [|c s IH]; intros cur Hcur.
  - simpl. now rewrite Hcur.
  - rewrite slash_scan_step. destruct (Ascii.eqb c slash) eqn:Ec.
    + cbn [forallb]. rewrite Hcur. now apply IH.
    + apply IH. unfold Str.snoc. rewrite occurs_append, Hcur. simpl.
      now rewrite Ec.
Qed.

Lemma filter_kept_components (l : list string) :
  forallb (fun x => negb (occurs slash x)) l = true ->
  forallb component (filter kept l) = true.
Proof.
  induction l as [|x l IH]; simpl; [reflexivity|].
  intros H. apply andb_prop in H. destruct H as [Hx Hl].
  destruct (kept x) eqn:Ek; [|now apply IH].
  cbn [forallb]. rewrite (IH Hl), andb_true_r.
  unfold component. now rewrite Ek, Hx.
Qed.

Lemma splitroot_root (s : string) :
  fst (splitroot s) = "" \/ fst (splitroot s) = "/" \/ fst (splitroot s) = "//".
Proof.
  destruct s as [|c1 s]; [now left|].
  destruct (Ascii.eqb_spec c1 "/") as [->|H1].
  - destruct s as [|c2 s]; [now right; left|].
    destruct (Ascii.eqb_spec c2 "/") as [->|H2].
    + destruct s as [|c3 s]; [now right; right|].
      destruct (Ascii.eqb_spec c3 "/") as [->|H3]; [now right; left|].
      right; right.
      destruct c3 as [[] [] [] [] [] [] [] []]; try reflexivity; congruence.
    + right; left.
      destruct c2 as [[] [] [] [] [] [] [] []]; try reflexivity; congruence.
  - left. destruct c1 as [[] [] [] [] [] [] [] []]; try reflexivity; congruence.
Qed.

(** Every path made by [Path] is well formed. *)
Lemma Path_well_formed (s : string) : well_formed (Path s).
Proof.
  unfold Path, well_formed. pose proof (splitroot_root s) as Hr.
  destruct (splitroot s) as [r rel]. cbn [root tail fst] in *.
  split; [exact Hr|].
  apply filter_kept_components. now apply slash_scan_pieces.
Qed.

Lemma forallb_firstn {A : Type} (f : A -> bool) (k : nat) (l : list A) :
  forallb f l = true -> forallb f (firstn k l) = true.
Proof.
  revert k. induction l as [|x l IH]; intros [|k]; simpl; try reflexivity.
  intros H. apply andb_prop in H. destruct H as [Hx Hl].
  now rewrite Hx, (IH k Hl).
Qed.

Lemma forallb_skipn {A : Type} (f : A -> bool) (k : nat) (l : list A) :
  forallb f l = true -> forallb f (skipn k l) = true.
Proof.
  revert k. induction l as [|x l IH]; intros [|k]; simpl; try reflexivity.
  - easy.
  - intros H. apply andb_prop in H. destruct H as [_ Hl]. now apply IH.
Qed.

Lemma ancestor_well_formed (p : PurePath) (k : nat) :
  well_formed p -> well_formed (mkPath (root p) (firstn k (tail p))).
Proof.
  intros [Hr Ht]. split; [exact Hr|]. cbn [tail]. now apply forallb_firstn.
Qed.

Lemma parent_well_formed (p : PurePath) : well_formed p -> well_formed (parent p).
Proof.
  intros H. unfold parent. destruct (tail p) as [|x l] eqn:E; [exact H|].
  rewrite <- E, removelast_firstn_len. now apply ancestor_well_formed.
Qed.

(** The first character of a joined list of components is no [/]. *)
Lemma join_head (x : string) (xs : list string) :
  component x = true ->
  exists c r, Str.join "/" (x :: xs) = String c r /\ c <> slash.
Proof.
  intros H. unfold component, kept in H.
  destruct x as [|c x]; [discriminate H|].
  exists c. simpl in H. destruct (Ascii.eqb_spec c slash) as [->|Hc];
    [now rewrite andb_false_r in H|].
  destruct xs; eexists; (split; [reflexivity|exact Hc]).
Qed.

Lemma splitroot_relative (c : ascii) (s : string) :
  c <> slash -> splitroot (String c s) = ("", String c s).
Proof.
  unfold slash. intros H.
  destruct c as [[] [] [] [] [] [] [] []]; try reflexivity; congruence.
Qed.

Lemma splitroot_single (c : ascii) (s : string) :
  c <> slash -> splitroot (String "/" (String c s)) = ("/", String c s).
Proof.
  unfold slash. intros H.
  destruct c as [[] [] [] [] [] [] [] []]; try reflexivity; congruence.
Qed.

Lemma splitroot_double (c : ascii) (s : string) :
  c <> slash ->
  splitroot (String "/" (String "/" (String c s))) = ("//", String c s).
Proof.
  unfold slash. intros H.
  destruct c as [[] [] [] [] [] [] [] []]; try reflexivity; congruence.
Qed.

(** Parsing the text of a well-formed path gives the path back. *)
Lemma Path_str (p : PurePath) : well_formed p -> Path (Pathlib.str p) = p.
Proof.
  destruct p as [r t]. intros [Hr Ht]. cbn [root tail] in *.
  unfold Pathlib.str, format_parsed_parts. cbn [root tail].
  destruct t as [|x xs].
  - destruct Hr as [-> | [-> | ->]]; reflexivity.
  - assert (Hx : component x = true) by (simpl in Ht; now apply andb_prop in Ht).
    destruct (join_head x xs Hx) as (c & rest & Hj & Hc).
    pose proof (split_join (x :: xs) Ht) as Hsplit. rewrite Hj in Hsplit.
    destruct Hr as [-> | [-> | ->]]; cbn [Str.truthy];
      rewrite Hj; unfold Str.or_else; cbn [Str.truthy append]; unfold Path.
    + now rewrite (splitroot_relative c rest Hc), Hsplit.
    + now rewrite (splitroot_single c rest Hc), Hsplit.
    + now rewrite (splitroot_double c rest Hc), Hsplit.
Qed.

(** On well-formed paths, [==] is equality. *)
Lemma path_eqb_eq (p q : PurePath) :
  well_formed p -> well_formed q -> Pathlib.eqb p q = true -> p = q.
Proof.
  intros Hp Hq H. apply String.eqb_eq in H.
  rewrite <- (Path_str p Hp), <- (Path_str q Hq). now rewrite H.
Qed.

(** * Relative paths *)

Lemma parents_ancestor (p x : PurePath) :
  In x (parents p) ->
  exists k, k <= List.length (tail p) /\ x = mkPath (root p) (firstn k (tail p)).
Proof.
  unfold parents. intros H. apply in_map_iff in H.
  destruct H as (idx & <- & Hin). apply in_seq in Hin.
  exists (List.length (tail p) - idx - 1). split; [lia|reflexivity].
Qed.

(** [is_relative_to] on well-formed paths: same root, and the components
    of the other path begin those of the path. *)
Lemma is_relative_to_prefix (f R : PurePath) :
  well_formed f -> well_formed R -> is_relative_to f R = true ->
  exists k, k <= List.length (tail f) /\ R = mkPath (root f) (firstn k (tail f)).
Proof.
  intros Hf HR H. unfold is_relative_to in H. apply orb_prop in H.
  destruct H as [H | H].
  - apply (path_eqb_eq _ _ HR Hf) in H. subst R.
    exists (List.length (tail f)). split; [lia|].
    rewrite firstn_all. now destruct f.
  - apply existsb_exists in H. destruct H as (x & Hin & Hx).
    destruct (parents_ancestor _ _ Hin) as (k & Hk & ->).
    exists k. split; [exact Hk|].
    apply (path_eqb_eq _ _ HR (ancestor_well_formed f k Hf) Hx).
Qed.

Lemma endswith_slash_component (a b : string) :
  component b = true -> Str.endswith (a ++ b) "/" = false.
Proof.
  intros Hb.
  assert (Hne : forall a', a' ++ b <> "").
  { intros a'. destruct b; [discriminate Hb|]. now destruct a'. }
  assert (Hbase : Str.endswith b "/" = false).
  { pose proof (component_no_slash b Hb) as Hs. clear Hb Hne.
    induction b as [|c b IH]; [reflexivity|].
    simpl in Hs. apply orb_false_elim in Hs. destruct Hs as [Hc Hs].
    cbn [Str.endswith]. rewrite (IH Hs), orb_false_r.
    cbn [String.eqb]. unfold slash in Hc. now rewrite Hc. }
  induction a as [|c a IH]; [exact Hbase|].
  change (String c a ++ b) with (String c (a ++ b)).
  cbn [Str.endswith]. rewrite IH, orb_false_r. cbn [String.eqb].
  destruct (Ascii.eqb c "/"); [|reflexivity].
  specialize (Hne a). now destruct (a ++ b).
Qed.

Lemma startswith_slash_component (b : string) :
  component b = true -> Str.startswith b "/" = false.
Proof.
  intros Hb. pose proof (component_no_slash b Hb) as Hs.
  destruct b as [|c b]; [reflexivity|].
  simpl in Hs. apply orb_false_elim in Hs. destruct Hs as [Hc _].
  unfold Str.startswith, slash in *. cbn [String.prefix].
  destruct (ascii_dec "/" c) as [<-|]; [discriminate Hc|reflexivity].
Qed.

Lemma posixpath_join_component (a b c : string) :
  component b = true -> component c = true ->
  posixpath_join (a ++ b) c = (a ++ b) ++ "/" ++ c.
Proof.
  intros Hb Hc. unfold posixpath_join.
  rewrite (startswith_slash_component c Hc), (endswith_slash_component a b Hb).
  destruct b; [discriminate Hb|]. now destruct a.
Qed.

Lemma fold_join_components (xs : list string) :
  forall a b,
    component b = true -> forallb component xs = true ->
    fold_left posixpath_join xs (a ++ b) = a ++ Str.join "/" (b :: xs).
Proof.
  induction xs as [|x xs IH]; intros a b Hb Hxs; [reflexivity|].
  simpl in Hxs. apply andb_prop in Hxs. destruct Hxs as [Hx Hxs].
  cbn [fold_left]. rewrite (posixpath_join_component a b x Hb Hx).
  replace ((a ++ b) ++ "/" ++ x) with ((a ++ b ++ "/") ++ x)
    by (now rewrite !append_assoc).
  rewrite (IH _ x Hx Hxs).
  change (Str.join "/" (b :: x :: xs)) with (b ++ "/" ++ Str.join "/" (x :: xs)).
  now rewrite !append_assoc.
Qed.

(** A path made of components is the relative path with these components. *)
Lemma with_segments_components (segs : list string) :
  forallb component segs = true -> with_segments segs = mkPath "" segs.
Proof.
  intros H. unfold with_segments.
  destruct segs as [|x xs]; [reflexivity|].
  assert (Hx : component x = true) by (simpl in H; now apply andb_prop in H).
  assert (Hxs : forallb component xs = true) by (simpl in H; now apply andb_prop in H).
  cbn [posixpath_join_all].
  change x with ("" ++ x) at 1. rewrite (fold_join_components xs "" x Hx Hxs).
  cbn [append].
  assert (Hwf : well_formed (mkPath "" (x :: xs))) by (split; [now left|exact H]).
  transitivity (Path (Pathlib.str (mkPath "" (x :: xs)))); [|now apply Path_str].
  f_equal.
  unfold Pathlib.str, format_parsed_parts, Str.or_else. cbn [root tail Str.truthy].
  destruct (join_head x xs Hx) as (c & r & -> & _). reflexivity.
Qed.

(** [relative_to] on well-formed paths: when [f] is relative to [R], the
    result is the relative path of the components of [f] below [R]. *)
Lemma relative_to_below (f R : PurePath) :
  well_formed f -> well_formed R -> is_relative_to f R = true ->
  exists segs,
    relative_to f R = Ok (mkPath "" segs)
    /\ root f = root R
    /\ tail f = (tail R ++ segs)%list
    /\ (Pathlib.eqb f R = false -> segs <> []).
Proof.
  intros Hf HR Hrel.
  destruct (is_relative_to_prefix f R Hf HR Hrel) as (k & Hk & ->).
  exists (skipn k (tail f)). cbn [root tail].
  assert (Hlen : List.length (firstn k (tail f)) = k)
    by (rewrite length_firstn; lia).
  repeat split.
  - unfold relative_to. rewrite Hrel. cbn [tail]. rewrite Hlen.
    rewrite with_segments_components; [reflexivity|].
    apply forallb_skipn. exact (proj2 Hf).
  - symmetry. apply firstn_skipn.
  - intros Hne Hnil.
    assert (Heq : firstn k (tail f) = tail f).
    { rewrite <- (firstn_skipn k (tail f)) at 2. now rewrite Hnil, app_nil_r. }
    rewrite Heq in Hne. destruct f as [r t]. cbn [root tail] in Hne.
    now rewrite path_eqb_refl in Hne.
Qed.

Lemma str_relative (x : string) (xs : list string) :
  component x = true ->
  Pathlib.str (mkPath "" (x :: xs)) = Str.join "/" (x :: xs).
Proof.
  intros Hx. unfold Pathlib.str, format_parsed_parts, Str.or_else.
  cbn [root tail Str.truthy].
  destruct (join_head x xs Hx) as (c & r & -> & _). reflexivity.
Qed.

(** * The repository locator *)

Section Locator.
Variable fs : FileSystem.

(** The loop test holds when the directory test returned [True] and the
    directory is not the previous one. *)
Lemma walk_enters_true current previous :
  walk_enters fs current previous = Ok true ->
  is_dir fs current = Ok true /\ differs current previous = true.
Proof.
  unfold walk_enters. destruct (is_dir fs current) as [[|]|e]; cbn [bind andb];
    intros H; inversion H; auto.
Qed.

(** The result of a walk is the result of the walk from any state it
    reaches. *)
Lemma git_reaches_walk current previous d pd :
  git_reaches fs current previous d pd ->
  discover_git_walk fs current previous = discover_git_walk fs d pd.
Proof.
  induction 1 as [|current previous d pd Henter [Hdir Hfile] _ IH];
    [reflexivity|].
  destruct (walk_enters_true _ _ Henter) as [Hd Hdiff].
  rewrite discover_git_walk_unfold, Hd. cbn [bind andb]. rewrite Hdiff.
  cbv zeta. rewrite Hdir. cbn [bind].
  destruct Hfile as [Hfile | (Hfile & text & Hread & Hkey)]; rewrite Hfile;
    cbn [bind]; [exact IH|].
  rewrite Hread. cbn [bind]. now rewrite Hkey.
Qed.

Lemma split_scan_not_nil (sep : string) (s : string) :
  forall skip cur, Str.split_scan sep skip cur s <> [].
Proof.
  induction s as [|c s IH]; intros skip cur; cbn [Str.split_scan];
    [intros H; discriminate H|].
  destruct skip; [|apply IH].
  destruct (String.prefix sep (String c s)); [intros H; discriminate H|apply IH].
Qed.

(** A pointer file that starts with the key always has a second piece. *)
Lemma split_after_key (s : string) :
  Str.startswith s "gitdir: " = true ->
  exists p rest, Str.split s "gitdir: " = "" :: p :: rest.
Proof.
  unfold Str.startswith, Str.split. intros H.
  destruct s as [|c s]; [simpl in H; discriminate|].
  cbn [Str.split_scan]. rewrite H.
  destruct (Str.split_scan "gitdir: " (String.length "gitdir: " - 1) "" s)
    as [|p rest] eqn:E; [|eauto].
  now apply split_scan_not_nil in E.
Qed.

(** What the walks return is well formed. *)
Lemma git_loop_well_formed fuel :
  forall current previous R,
    well_formed current ->
    discover_git_loop fs fuel current previous = Some (Ok (Some R)) ->
    well_formed R.
Proof.
  induction fuel as [|fuel IH]; intros current previous R Hwf; simpl;
    destruct (is_dir fs current) as [d|e]; cbn [step]; try discriminate;
    destruct (d && differs current previous); try discriminate.
  destruct (is_dir fs (joinpath current ".git")) as [[|]|e]; cbn [step];
    [| |discriminate].
  { intros H. now inversion H; subst. }
  assert (Hup : discover_git_loop fs fuel (parent current) (Some current)
                = Some (Ok (Some R)) -> well_formed R)
    by (apply IH; now apply parent_well_formed).
  destruct (is_file fs (joinpath current ".git")) as [[|]|e]; cbn [step];
    [|exact Hup|discriminate].
  destruct (read fs (joinpath current ".git")) as [text|e]; cbn [step];
    [|discriminate].
  destruct (Str.startswith (Str.strip text) "gitdir: "); [|exact Hup].
  destruct (Str.index (Str.split (Str.strip text) "gitdir: ") 1) as [p|e];
    cbn [bind]; [|discriminate].
  intros H. inversion H; subst. apply Path_well_formed.
Qed.

Lemma flake_loop_well_formed fuel :
  forall current previous F,
    well_formed current ->
    discover_closest_flake_loop fs fuel current previous = Some (Ok (Some F)) ->
    well_formed F.
Proof.
  induction fuel as [|fuel IH]; intros current previous F Hwf; simpl;
    destruct (is_dir fs current) as [d|e]; cbn [step]; try discriminate;
    destruct (d && differs current previous); try discriminate.
  destruct (is_file fs (joinpath current "flake.nix")) as [[|]|e]; cbn [step].
  - intros H. now inversion H; subst.
  - apply IH. now apply parent_well_formed.
  - discriminate.
Qed.

Lemma discover_git_well_formed location R :
  discover_git fs location = Ok (Some R) -> well_formed R.
Proof.
  unfold discover_git, resolve.
  destruct (realpath fs (Pathlib.str location)) as [s|e]; cbn [bind];
    [|discriminate].
  unfold discover_git_walk.
  destruct (discover_git_loop fs (walk_fuel (Path s)) (Path s) None) as [r|] eqn:E;
    [|discriminate].
  intros ->. exact (git_loop_well_formed _ _ _ _ (Path_well_formed s) E).
Qed.

Lemma discover_closest_flake_well_formed location F :
  discover_closest_flake fs location = Ok (Some F) -> well_formed F.
Proof.
  unfold discover_closest_flake, resolve.
  destruct (realpath fs (Pathlib.str location)) as [s|e]; cbn [bind];
    [|discriminate].
  unfold discover_closest_flake_walk.
  destruct (discover_closest_flake_loop fs (walk_fuel (Path s)) (Path s) None)
    as [r|] eqn:E; [|discriminate].
  intros ->. exact (flake_loop_well_formed _ _ _ _ (Path_well_formed s) E).
Qed.

(** C4, as amended.  When the walk of [discover_git] comes to a directory
    whose [.git] entry is a regular file with the text
    [gitdir: /elsewhere/.git], the function returns the path
    [/elsewhere/.git] as written: nothing is asked of the file system about
    it, and its text is unchanged. *)
Theorem discover_git_worktree_pointer (location start d : PurePath)
    (pd : option PurePath) :
  resolve fs location = Ok start ->
  git_reaches fs start None d pd ->
  walk_enters fs d pd = Ok true ->
  is_dir fs (joinpath d ".git") = Ok false ->
  is_file fs (joinpath d ".git") = Ok true ->
  read fs (joinpath d ".git") = Ok "gitdir: /elsewhere/.git" ->
  discover_git fs location = Ok (Some (Path "/elsewhere/.git"))
  /\ Pathlib.str (Path "/elsewhere/.git") = "/elsewhere/.git".
Proof.
  intros Hres Hreach Henter Hdir Hfile Hread. split; [|reflexivity].
  destruct (walk_enters_true _ _ Henter) as [Hd Hdiff].
  unfold discover_git. rewrite Hres. cbn [bind].
  rewrite (git_reaches_walk _ _ _ _ Hreach), discover_git_walk_unfold.
  rewrite Hd. cbn [bind andb]. rewrite Hdiff. cbv zeta.
  rewrite Hdir. cbn [bind]. rewrite Hfile. cbn [bind]. rewrite Hread.
  reflexivity.
Qed.

(** C5, as amended.  When the walk of [discover_git] comes to a directory
    whose [.git] entry is a regular file that can be read and whose stripped
    text does not start with [gitdir: ], the entry is passed over: the
    result is that of the walk resumed at the parent directory, and no error
    is raised on account of the text. *)
Theorem discover_git_skips_malformed_pointer (location start d : PurePath)
    (pd : option PurePath) (text : string) :
  resolve fs location = Ok start ->
  git_reaches fs start None d pd ->
  walk_enters fs d pd = Ok true ->
  is_dir fs (joinpath d ".git") = Ok false ->
  is_file fs (joinpath d ".git") = Ok true ->
  read fs (joinpath d ".git") = Ok text ->
  Str.startswith (Str.strip text) "gitdir: " = false ->
  discover_git fs location = discover_git_walk fs (parent d) (Some d).
Proof.
  intros Hres Hreach Henter Hdir Hfile Hread Hkey.
  destruct (walk_enters_true _ _ Henter) as [Hd Hdiff].
  unfold discover_git. rewrite Hres. cbn [bind].
  rewrite (git_reaches_walk _ _ _ _ Hreach), discover_git_walk_unfold.
  rewrite Hd. cbn [bind andb]. rewrite Hdiff. cbv zeta.
  rewrite Hdir. cbn [bind]. rewrite Hfile. cbn [bind]. rewrite Hread.
  cbn [bind]. now rewrite Hkey.
Qed.

(** C9.  Both upward walks end: run from the resolved start, which is an
    absolute path, the loop of [discover_git] and the loop of
    [discover_closest_flake] each return within as many runs of the loop
    body as the start has parts (its root and its components).  This
    includes a start that is the root, which is its own parent. *)
Theorem walks_terminate (location current : PurePath) :
  resolve fs location = Ok current ->
  root current <> "" ->
  (exists r, discover_git_loop fs (List.length (parts current)) current None
             = Some r)
  /\ (exists r, discover_closest_flake_loop fs (List.length (parts current))
                  current None = Some r).
Proof.
  intros _ Habs. rewrite (parts_length_absolute _ Habs). unfold walk_fuel.
  split; [apply git_loop_enough | apply flake_loop_enough]; lia.
Qed.

End Locator.

Lemma discover_git_worktree_pointer_witness :
  discover_git fs_worktree (Path ".") = Ok (Some (Path "/elsewhere/.git"))
  /\ Pathlib.str (Path "/elsewhere/.git") = "/elsewhere/.git".
Proof.
  apply (discover_git_worktree_pointer fs_worktree (Path ".") (Path "/wt/src")
           (Path "/wt") (Some (Path "/wt/src"))); try reflexivity.
  apply reaches_up; [reflexivity | split; [reflexivity | left; reflexivity] |].
  apply reaches_start.
Defined.

(** C4, as stated, fails: with the key spelled [gidref] the pointer file is
    not recognised, and the walk goes on to the root and finds nothing. *)
Lemma discover_git_gidref_counterexample :
  git_reaches fs_gidref (Path "/wt/src") None (Path "/wt") (Some (Path "/wt/src"))
  /\ walk_enters fs_gidref (Path "/wt") (Some (Path "/wt/src")) = Ok true
  /\ is_dir fs_gidref (joinpath (Path "/wt") ".git") = Ok false
  /\ is_file fs_gidref (joinpath (Path "/wt") ".git") = Ok true
  /\ read fs_gidref (joinpath (Path "/wt") ".git") = Ok "gidref: /elsewhere/.git"
  /\ discover_git fs_gidref (Path "/wt/src") = Ok None
  /\ discover_git fs_gidref (Path "/wt/src") <> Ok (Some (Path "/elsewhere/.git")).
Proof.
  repeat split; try reflexivity; try discriminate.
  apply reaches_up; [reflexivity | split; [reflexivity | left; reflexivity] |].
  apply reaches_start.
Qed.

Lemma discover_git_skips_malformed_pointer_witness :
  discover_git fs_garbled (Path ".")
  = discover_git_walk fs_garbled (Path "/outer") (Some (Path "/outer/inner")).
Proof.
  apply (discover_git_skips_malformed_pointer fs_garbled (Path ".")
           (Path "/outer/inner") (Path "/outer/inner") None "not a pointer");
    try reflexivity.
  apply reaches_start.
Defined.

(** C5, as stated, fails: a pointer file of unexpected content raises
    nothing; the walk goes on and returns the enclosing repository. *)
Lemma discover_git_malformed_pointer_counterexample :
  is_file fs_garbled (joinpath (Path "/outer/inner") ".git") = Ok true
  /\ read fs_garbled (joinpath (Path "/outer/inner") ".git") = Ok "not a pointer"
  /\ discover_git fs_garbled (Path "/outer/inner") = Ok (Some (Path "/outer"))
  /\ forall e, discover_git fs_garbled (Path "/outer/inner") <> Raise e.
Proof.
  repeat split; try reflexivity. intros e. discriminate.
Qed.

Lemma walks_terminate_witness :
  (exists r, discover_git_loop fs_monorepo 1 (Path "/") None = Some r)
  /\ (exists r, discover_closest_flake_loop fs_monorepo 1 (Path "/") None = Some r).
Proof.
  apply (walks_terminate fs_monorepo (Path "/") (Path "/")); [reflexivity|].
  discriminate.
Defined.

(** * Splitting a reference *)

Lemma all_in_path_char s : all_in path_char s = negb (occurs Str.hash s).
Proof.
  induction s as [|c s IH]; simpl; [reflexivity|].
  rewrite IH. unfold path_char. now rewrite negb_orb.
Qed.

Lemma all_in_attr_char s :
  all_in attr_char s = negb (occurs Str.hash s) && negb (occurs Str.dquote s).
Proof.
  induction s as [|c s IH]; simpl; [reflexivity|].
  rewrite IH. unfold attr_char.
  destruct (Ascii.eqb c Str.hash), (Ascii.eqb c Str.dquote); simpl;
    try reflexivity; now rewrite ?andb_false_r.
Qed.

(** The groups of a match, read off the text. *)
Lemma _re_groups (raw p a : string) :
  Flake._re raw = Some (p, a) <->
  (occurs Str.hash raw = false /\ p = raw /\ a = "")
  \/ (raw = p ++ String Str.hash a /\ occurs Str.hash p = false
      /\ occurs Str.hash a = false /\ occurs Str.dquote a = false).
Proof.
  rewrite _re_spec. unfold split_spec. split.
  - destruct (span path_char raw) as [p0 rest] eqn:E.
    assert (Hs : raw = p0 ++ rest)
      by (now rewrite <- (span_append path_char raw), E).
    assert (Hp : occurs Str.hash p0 = false).
    { generalize (span_all_in path_char raw). rewrite E. simpl.
      rewrite all_in_path_char. now destruct (occurs Str.hash p0). }
    destruct rest as [|c a0].
    + intros H. inversion H; subst. left. now rewrite append_nil_r in *.
    + assert (c = Str.hash) as ->.
      { apply path_char_false. apply (span_rest path_char raw c a0). now rewrite E. }
      destruct (all_in attr_char a0) eqn:Ha; [|discriminate].
      intros H. inversion H; subst. right.
      rewrite all_in_attr_char in Ha. apply andb_prop in Ha. destruct Ha as [H1 H2].
      apply negb_true_iff in H1, H2. auto.
  - intros [(Hraw & -> & ->) | (-> & Hp & Ha & Hq)].
    + rewrite span_all; [reflexivity|]. now rewrite all_in_path_char, Hraw.
    + rewrite span_prefix by (now rewrite all_in_path_char, Hp).
      simpl. rewrite append_nil_r. now rewrite all_in_attr_char, Ha, Hq.
Qed.

Lemma _re_none (raw : string) :
  Flake._re raw = None <->
  exists p rest, raw = p ++ String Str.hash rest /\ occurs Str.hash p = false
                 /\ (occurs Str.hash rest = true \/ occurs Str.dquote rest = true).
Proof.
  rewrite _re_spec. unfold split_spec. split.
  - destruct (span path_char raw) as [p0 rest] eqn:E.
    assert (Hs : raw = p0 ++ rest)
      by (now rewrite <- (span_append path_char raw), E).
    assert (Hp : occurs Str.hash p0 = false).
    { generalize (span_all_in path_char raw). rewrite E. simpl.
      rewrite all_in_path_char. now destruct (occurs Str.hash p0). }
    destruct rest as [|c a0]; [discriminate|].
    assert (c = Str.hash) as ->.
    { apply path_char_false. apply (span_rest path_char raw c a0). now rewrite E. }
    destruct (all_in attr_char a0) eqn:Ha; [discriminate|]. intros _.
    exists p0, a0. repeat split; try assumption.
    rewrite all_in_attr_char in Ha.
    destruct (occurs Str.hash a0); [now left|].
    destruct (occurs Str.dquote a0); [now right|discriminate].
  - intros (p & rest & -> & Hp & Hbad).
    rewrite span_prefix by (now rewrite all_in_path_char, Hp).
    simpl. rewrite all_in_attr_char.
    destruct Hbad as [-> | ->]; [reflexivity|]. now rewrite andb_false_r.
Qed.

(** * The hostname probe and the configuration name *)

Section Resolver.
Context {Remote : Type}.
Implicit Types (fs : FileSystem) (host : Host Remote) (target : option Remote).

Lemma truthy_not_empty (s : string) : Str.truthy s = true <-> s <> "".
Proof. destruct s; simpl; split; congruence. Qed.

Lemma or_else_truthy (s d : string) :
  Str.truthy d = true -> Str.truthy (Str.or_else s d) = true.
Proof. unfold Str.or_else. now destruct (Str.truthy s) eqn:E. Qed.

(** The name put between the quotes is never empty. *)
Lemma config_name_truthy host a target name :
  Flake.config_name host a target = Ok name -> Str.truthy name = true.
Proof.
  unfold Flake.config_name. destruct (Str.truthy a) eqn:Ea.
  - intros H. now inversion H; subst.
  - destruct (get_hostname host target) as [[h|]|e]; cbn [bind];
      intros H; inversion H; subst; [now apply or_else_truthy | reflexivity].
Qed.

(** An explicit attribute is used as it is, without a probe. *)
Lemma config_name_explicit host a target :
  a <> "" -> Flake.config_name host a target = Ok a.
Proof.
  intros H. unfold Flake.config_name.
  now rewrite (proj2 (truthy_not_empty a) H).
Qed.

(** The name is always found when the probe, if one is run, ends in one of
    the ways that [get_hostname] provides for. *)
Lemma config_name_returns host a target :
  (forall remote e,
     target = Some remote ->
     run_wrapper host ["uname"; "-n"] true remote = Raise e ->
     probe_failure e = true) ->
  exists name, Flake.config_name host a target = Ok name.
Proof.
  intros H. unfold Flake.config_name.
  destruct (Str.truthy a); [eauto|].
  destruct target as [remote|]; cbn [get_hostname]; [|cbn [bind]; eauto].
  specialize (H remote).
  destruct (run_wrapper host ["uname"; "-n"] true remote) as [proc|e];
    cbn [bind try_except].
  - unfold stdout_strip. destruct (stdout proc); cbn; eauto.
  - rewrite (H e eq_refl eq_refl). cbn [bind]. eauto.
Qed.

(** [parse] after a successful split. *)
Lemma parse_matched fs host raw target p a :
  Flake._re raw = Some (p, a) ->
  Flake.parse fs host raw target =
  (name <- Flake.config_name host a target ;;
   if Str.contains ":" p then Ok (Flake.mk (StrV p) (Flake.quoted name))
   else
     git_repo <- discover_git fs (Path p) ;;
     match git_repo with
     | Some git_repo =>
         flake_path <- discover_closest_flake fs (Path p) ;;
         url <- Flake.repo_url git_repo flake_path ;;
         Ok (Flake.mk (StrV url) (Flake.quoted name))
     | None => Ok (Flake.mk (PathV (Path p)) (Flake.quoted name))
     end).
Proof. intros H. unfold Flake.parse. now rewrite H. Qed.

(** C8.  Without a remote handle [get_hostname] returns the name that the
    local host reports.  With a remote handle, when the probe fails because
    the capability is absent (an [AttributeError], or a result without
    captured output) or because the command exits non-zero (a
    [CalledProcessError]), it returns [None] and raises nothing. *)
Theorem get_hostname_best_effort host :
  get_hostname host None = Ok (Some (node host))
  /\ forall remote,
       run_wrapper host ["uname"; "-n"] true remote = Raise AttributeError
       \/ run_wrapper host ["uname"; "-n"] true remote = Raise CalledProcessError
       \/ run_wrapper host ["uname"; "-n"] true remote = Ok {| stdout := None |} ->
       get_hostname host (Some remote) = Ok None.
Proof.
  split; [reflexivity|].
  intros remote [H | [H | H]]; unfold get_hostname; rewrite H; reflexivity.
Qed.

(** C2, as amended.  The split of [raw] succeeds exactly when [raw] has no
    [#], or has the form [p#a] where [p] has no [#] and [a] has neither [#]
    nor a double quote; the groups are then [raw] and the empty text, or
    [p] and [a].  For every other text (a second [#], or a double quote
    after the [#]) the pattern does not match and [parse] fails its
    assertion. *)
Theorem flake_split_succeeds_iff fs host raw target :
  (forall p a,
     Flake._re raw = Some (p, a) <->
     (occurs Str.hash raw = false /\ p = raw /\ a = "")
     \/ (raw = p ++ String Str.hash a /\ occurs Str.hash p = false
         /\ occurs Str.hash a = false /\ occurs Str.dquote a = false))
  /\ (Flake._re raw = None <->
      exists p rest,
        raw = p ++ String Str.hash rest /\ occurs Str.hash p = false
        /\ (occurs Str.hash rest = true \/ occurs Str.dquote rest = true))
  /\ (Flake._re raw = None ->
      Flake.parse fs host raw target
      = Raise (AssertionError ("got no matches for " ++ raw))).
Proof.
  split; [intros p a; apply _re_groups|]. split; [apply _re_none|].
  intros H. unfold Flake.parse. now rewrite H.
Qed.

(** C6.  When the path part of [raw] contains [:], [parse] returns the
    reference made of that path part, unchanged, and of the quoted
    configuration name; the file system is not consulted, so the result is
    the same on every file system. *)
Theorem parse_url_unchanged fs host raw target p a name :
  Flake._re raw = Some (p, a) ->
  Str.contains ":" p = true ->
  Flake.config_name host a target = Ok name ->
  Flake.parse fs host raw target = Ok (Flake.mk (StrV p) (Flake.quoted name))
  /\ forall fs', Flake.parse fs' host raw target = Flake.parse fs host raw target.
Proof.
  intros Hm Hc Hn. split.
  - rewrite (parse_matched _ _ _ _ _ _ Hm), Hn. cbn [bind]. now rewrite Hc.
  - intros fs'. rewrite !(parse_matched _ _ _ _ _ _ Hm), Hn. cbn [bind].
    now rewrite Hc.
Qed.

(** C7.  Whatever the input and whatever the probe answers, a reference
    returned by [parse] has as attribute the text [nixosConfigurations.]
    followed by a name between two double quotes (the character 34), and
    the name is not empty: it is the attribute part when there is one, else
    the host name when the probe gives a non-empty one, else the word
    [default].  In particular the attribute is never empty. *)
Theorem parse_attr_shape fs host raw target r :
  Flake.parse fs host raw target = Ok r ->
  exists name,
    Flake.attr r = "nixosConfigurations." ++ String "034" (name ++ String "034" "")
    /\ name <> ""
    /\ Flake.attr r <> ""
    /\ forall p a,
         Flake._re raw = Some (p, a) ->
         (a <> "" -> name = a)
         /\ (a = "" -> forall h, get_hostname host target = Ok (Some h) ->
                       h <> "" -> name = h)
         /\ (a = "" -> get_hostname host target = Ok None
                       \/ get_hostname host target = Ok (Some "") ->
                       name = "default").
Proof.
  intros Hp. destruct (Flake._re raw) as [[p0 a0]|] eqn:Hm.
  2:{ unfold Flake.parse in Hp. rewrite Hm in Hp. discriminate Hp. }
  rewrite (parse_matched _ _ _ _ _ _ Hm) in Hp.
  destruct (Flake.config_name host a0 target) as [name|e] eqn:Hn;
    [|discriminate Hp].
  cbn [bind] in Hp. exists name.
  assert (Hattr : Flake.attr r
                  = "nixosConfigurations."
                    ++ String "034" (name ++ String "034" "")).
  { change ("nixosConfigurations." ++ String "034" (name ++ String "034" ""))
      with (Flake.quoted name).
    destruct (Str.contains ":" p0); [now inversion Hp|].
    destruct (discover_git fs (Path p0)) as [[R|]|e]; cbn [bind] in Hp;
      [| now inversion Hp | discriminate Hp].
    destruct (discover_closest_flake fs (Path p0)) as [F|e]; cbn [bind] in Hp;
      [|discriminate Hp].
    destruct (Flake.repo_url R F); cbn [bind] in Hp; [|discriminate Hp].
    now inversion Hp. }
  split; [exact Hattr|]. split.
  { apply truthy_not_empty. exact (config_name_truthy _ _ _ _ Hn). }
  split; [rewrite Hattr; discriminate|].
  intros p a Hm'. inversion Hm'; subst p0 a0. clear Hm'.
  unfold Flake.config_name in Hn. repeat split.
  - intros Ha. apply truthy_not_empty in Ha. rewrite Ha in Hn.
    now inversion Hn.
  - intros -> h Hh Hne. cbn in Hn. rewrite Hh in Hn. cbn in Hn.
    apply truthy_not_empty in Hne. unfold Str.or_else in Hn.
    rewrite Hne in Hn. now inversion Hn.
  - intros -> [Hh | Hh]; cbn in Hn; rewrite Hh in Hn; cbn in Hn;
      now inversion Hn.
Qed.

(** C10.  When the attribute part of [raw] is not empty, the result of
    [parse] does not depend on the remote handle, nor on anything the host
    or a probe could answer: no probe is run. *)
Theorem parse_explicit_attr_ignores_remote fs (host host' : Host Remote)
    raw target target' p a :
  Flake._re raw = Some (p, a) ->
  a <> "" ->
  Flake.parse fs host raw target = Flake.parse fs host' raw target'.
Proof.
  intros Hm Ha. rewrite !(parse_matched _ _ _ _ _ _ Hm).
  now rewrite !(config_name_explicit _ _ _ Ha).
Qed.

Lemma quoted_has_dquote (name : string) :
  occurs Str.dquote (Flake.quoted name) = true.
Proof.
  unfold Flake.quoted. rewrite occurs_append. simpl. reflexivity.
Qed.

(** C3, as amended.  For an input whose path part contains [:] and on which
    [parse] returns the reference [r], parsing the printed form of [r] does
    not give [r] back: the printed attribute carries double quotes, which
    the pattern refuses, so [parse] fails its assertion.  What is stable is
    the unquoted form: parsing the path part, [#] and the configuration name
    of [r] returns [r] again, with any remote handle, as long as that name
    has neither [#] nor a double quote. *)
Theorem reparse_canonical_form fs host raw target p a r :
  Flake._re raw = Some (p, a) ->
  Str.contains ":" p = true ->
  Flake.parse fs host raw target = Ok r ->
  Flake.parse fs host (Flake.__str__ r) target
  = Raise (AssertionError ("got no matches for " ++ Flake.__str__ r))
  /\ exists name,
       Flake.path r = StrV p
       /\ Flake.attr r = Flake.quoted name
       /\ (occurs Str.hash name = false ->
           occurs Str.dquote name = false ->
           forall target',
             Flake.parse fs host (p ++ "#" ++ name) target' = Ok r).
Proof.
  intros Hm Hc Hp.
  assert (Hhash : occurs Str.hash p = false).
  { apply _re_groups in Hm. destruct Hm as [(H & -> & _) | (_ & H & _)]; exact H. }
  rewrite (parse_matched _ _ _ _ _ _ Hm) in Hp.
  destruct (Flake.config_name host a target) as [name|e] eqn:Hn;
    [|discriminate Hp].
  cbn [bind] in Hp. rewrite Hc in Hp. inversion Hp; subst r. clear Hp.
  split.
  - unfold Flake.parse.
    replace (Flake._re (Flake.__str__ (Flake.mk (StrV p) (Flake.quoted name))))
      with (@None (string * string)); [reflexivity|].
    symmetry. apply _re_none. exists p, (Flake.quoted name).
    repeat split; [exact Hhash|]. right. apply quoted_has_dquote.
  - exists name. repeat split. intros H1 H2 target'.
    assert (Hm' : Flake._re (p ++ "#" ++ name) = Some (p, name)).
    { apply _re_groups. right. repeat split; assumption. }
    rewrite (parse_matched _ _ _ _ _ _ Hm').
    rewrite config_name_explicit.
    + cbn [bind]. now rewrite Hc.
    + apply truthy_not_empty. exact (config_name_truthy _ _ _ _ Hn).
Qed.

(** C1.  For a path part without [:] that lies in a repository with root
    [R], [parse] returns the location [git+file://R].  The fragment
    [?dir=] is appended exactly when the manifest search from the same path
    part finds a location [F] that differs from [R] and is relative to [R];
    what follows [?dir=] is then [F] taken relative to [R]: the components
    of [F] below [R], which are not none, joined by [/].  When the search
    finds nothing, finds [R] itself, or finds a location that is not
    relative to [R], nothing is appended.  The manifest search asks the file
    system again; when it raises, [parse] raises the same exception. *)
Theorem parse_inside_repository fs host raw target p a name R :
  Flake._re raw = Some (p, a) ->
  Str.contains ":" p = false ->
  Flake.config_name host a target = Ok name ->
  discover_git fs (Path p) = Ok (Some R) ->
  (forall F,
     discover_closest_flake fs (Path p) = Ok F ->
     (forall f,
        F = Some f -> Pathlib.eqb f R = false -> is_relative_to f R = true ->
        exists below,
          below <> []
          /\ root f = root R
          /\ tail f = (tail R ++ below)%list
          /\ relative_to f R = Ok (mkPath "" below)
          /\ Flake.parse fs host raw target
             = Ok (Flake.mk
                     (StrV ("git+file://" ++ Pathlib.str R ++ "?dir="
                            ++ Str.join "/" below))
                     (Flake.quoted name)))
     /\ (F = None
         \/ (exists f, F = Some f
                       /\ (Pathlib.eqb f R = true \/ is_relative_to f R = false)) ->
         Flake.parse fs host raw target
         = Ok (Flake.mk (StrV ("git+file://" ++ Pathlib.str R))
                 (Flake.quoted name))))
  /\ (forall e,
        discover_closest_flake fs (Path p) = Raise e ->
        Flake.parse fs host raw target = Raise e).
Proof.
  intros Hm Hc Hn Hg.
  rewrite (parse_matched _ _ _ _ _ _ Hm), Hn. cbn [bind].
  rewrite Hc, Hg. cbn [bind]. split.
  - intros F HF. rewrite HF. cbn [bind]. split.
    + intros f -> Hne Hrel.
      pose proof (discover_git_well_formed _ _ _ Hg) as HR.
      pose proof (discover_closest_flake_well_formed _ _ _ HF) as Hf.
      destruct (relative_to_below f R Hf HR Hrel)
        as (below & Hto & Hroot & Htail & Hnil).
      specialize (Hnil Hne). exists below. repeat split; try assumption.
      unfold Flake.repo_url. rewrite Hne, Hrel, Hto. cbn [negb andb bind].
      destruct below as [|x xs]; [congruence|].
      assert (Hx : component x = true).
      { destruct Hf as [_ Hf]. rewrite Htail, forallb_app in Hf.
        apply andb_prop in Hf. destruct Hf as [_ Hf]. simpl in Hf.
        now apply andb_prop in Hf. }
      rewrite (str_relative x xs Hx). now rewrite <- !append_assoc.
    + intros [-> | (f & -> & [He | Hr])]; unfold Flake.repo_url.
      * reflexivity.
      * now rewrite He.
      * rewrite Hr, andb_false_r. reflexivity.
  - intros e HF. now rewrite HF.
Qed.

End Resolver.

(** ** The statements at concrete inputs *)

Lemma get_hostname_best_effort_witness :
  get_hostname host_box (Some tt) = Ok None.
Proof.
  apply (proj2 (get_hostname_best_effort host_box) tt).
  right. left. reflexivity.
Defined.

(** C2, as stated, fails: a text with two [#] is not matched, and [parse]
    fails its assertion on it. *)
Lemma flake_split_counterexample :
  Flake._re "a#b#c" = None
  /\ Flake.parse fs_monorepo host_box "a#b#c" None
     = Raise (AssertionError "got no matches for a#b#c").
Proof. split; reflexivity. Qed.

Lemma flake_split_succeeds_iff_witness :
  Flake.parse fs_monorepo host_box "a#b#c" None
  = Raise (AssertionError ("got no matches for " ++ "a#b#c")).
Proof.
  apply (proj2 (proj2 (flake_split_succeeds_iff fs_monorepo host_box "a#b#c" None))).
  reflexivity.
Defined.

(** C3, as stated, fails: the printed form of a parsed reference is refused
    when parsed again. *)
Lemma reparse_counterexample :
  exists r,
    Flake.parse fs_monorepo host_box "github:foo/bar#web" None = Ok r
    /\ Flake.parse fs_monorepo host_box (Flake.__str__ r) None
       <> Flake.parse fs_monorepo host_box "github:foo/bar#web" None.
Proof.
  eexists. split; [reflexivity|]. discriminate.
Qed.

Lemma reparse_canonical_form_witness :
  Flake.parse fs_monorepo host_box
    (Flake.__str__ (Flake.mk (StrV "github:foo/bar") (Flake.quoted "web"))) None
  = Raise (AssertionError
             ("got no matches for "
              ++ Flake.__str__ (Flake.mk (StrV "github:foo/bar") (Flake.quoted "web"))))
  /\ exists name,
       StrV "github:foo/bar" = StrV "github:foo/bar"
       /\ Flake.quoted "web" = Flake.quoted name
       /\ (occurs Str.hash name = false ->
           occurs Str.dquote name = false ->
           forall target',
             Flake.parse fs_monorepo host_box ("github:foo/bar" ++ "#" ++ name) target'
             = Ok (Flake.mk (StrV "github:foo/bar") (Flake.quoted "web"))).
Proof.
  apply (reparse_canonical_form fs_monorepo host_box "github:foo/bar#web" None
           "github:foo/bar" "web"); reflexivity.
Defined.

Lemma parse_url_unchanged_witness :
  Flake.parse fs_monorepo host_nameless "github:foo/bar" (Some tt)
  = Ok (Flake.mk (StrV "github:foo/bar") (Flake.quoted "web1"))
  /\ forall fs',
       Flake.parse fs' host_nameless "github:foo/bar" (Some tt)
       = Flake.parse fs_monorepo host_nameless "github:foo/bar" (Some tt).
Proof.
  apply (parse_url_unchanged fs_monorepo host_nameless "github:foo/bar" (Some tt)
           "github:foo/bar" "" "web1"); reflexivity.
Defined.

Lemma parse_attr_shape_witness :
  exists name,
    Flake.quoted "default"
    = "nixosConfigurations." ++ String "034" (name ++ String "034" "")
    /\ name <> ""
    /\ Flake.quoted "default" <> ""
    /\ forall p a,
         Flake._re "/nowhere" = Some (p, a) ->
         (a <> "" -> name = a)
         /\ (a = "" -> forall h, get_hostname host_nameless None = Ok (Some h) ->
                       h <> "" -> name = h)
         /\ (a = "" -> get_hostname host_nameless None = Ok None
                       \/ get_hostname host_nameless None = Ok (Some "") ->
                       name = "default").
Proof.
  apply (parse_attr_shape fs_monorepo host_nameless "/nowhere" None
           (Flake.mk (PathV (Path "/nowhere")) (Flake.quoted "default"))).
  reflexivity.
Defined.

Lemma parse_explicit_attr_ignores_remote_witness :
  Flake.parse fs_monorepo host_box ".#web" None
  = Flake.parse fs_monorepo host_nameless ".#web" (Some tt).
Proof.
  apply (parse_explicit_attr_ignores_remote fs_monorepo host_box host_nameless
           ".#web" None (Some tt) "." "web"); [reflexivity|discriminate].
Defined.

Lemma parse_inside_repository_witness :
  (forall F,
     discover_closest_flake fs_monorepo (Path ".") = Ok F ->
     (forall f,
        F = Some f -> Pathlib.eqb f (Path "/r") = false ->
        is_relative_to f (Path "/r") = true ->
        exists below,
          below <> []
          /\ root f = root (Path "/r")
          /\ tail f = (tail (Path "/r") ++ below)%list
          /\ relative_to f (Path "/r") = Ok (mkPath "" below)
          /\ Flake.parse fs_monorepo host_box ".#web" None
             = Ok (Flake.mk
                     (StrV ("git+file://" ++ Pathlib.str (Path "/r") ++ "?dir="
                            ++ Str.join "/" below))
                     (Flake.quoted "web")))
     /\ (F = None
         \/ (exists f, F = Some f
                       /\ (Pathlib.eqb f (Path "/r") = true
                           \/ is_relative_to f (Path "/r") = false)) ->
         Flake.parse fs_monorepo host_box ".#web" None
         = Ok (Flake.mk (StrV ("git+file://" ++ Pathlib.str (Path "/r")))
                 (Flake.quoted "web"))))
  /\ (forall e,
        discover_closest_flake fs_monorepo (Path ".") = Raise e ->
        Flake.parse fs_monorepo host_box ".#web" None = Raise e).
Proof.
  apply (parse_inside_repository fs_monorepo host_box ".#web" None "." "web" "web"
           (Path "/r")); reflexivity.
Defined.

(** The same reference asked for in a tree where the directory between
    the start and the root of the repository cannot be searched: the
    repository is found, the manifest search raises, and so does [parse]. *)
Example parse_locked :
  discover_git fs_locked (Path ".") = Ok (Some (Path "/r"))
  /\ discover_closest_flake fs_locked (Path ".") = Raise OSError
  /\ Flake.parse fs_locked host_box ".#web" None = Raise OSError.
Proof. repeat split. Qed.

(** The example of the specification: the manifest two levels below the
    root of the repository. *)
Example parse_monorepo :
  Flake.parse fs_monorepo host_box ".#web" None
  = Ok (Flake.mk (StrV "git+file:///r?dir=sub/dir") (Flake.quoted "web")).
Proof. reflexivity. Qed.

(** * More on the upward walks *)

Lemma up_parent (n : nat) (p : PurePath) : up (S n) p = parent (up n p).
Proof.
  revert p. induction n as [|n IH]; intros p; [reflexivity|].
  change (up (S (S n)) p) with (up (S n) (parent p)). now rewrite IH.
Qed.

(** The ancestor [n] levels up keeps the root and drops [n] components. *)
Lemma up_ancestor (n : nat) :
  forall p, up n p = mkPath (root p) (firstn (List.length (tail p) - n) (tail p)).
Proof.
  induction n as [|n IH]; intros p.
  - simpl. rewrite Nat.sub_0_r, firstn_all. now destruct p.
  - cbn [up]. rewrite IH. unfold parent.
    destruct (tail p) as [|x l] eqn:E.
    + rewrite E. reflexivity.
    + cbn [root tail]. rewrite <- E, removelast_firstn_len, firstn_firstn.
      f_equal. f_equal. rewrite length_firstn. lia.
Qed.

Lemma up_well_formed (n : nat) (p : PurePath) : well_formed p -> well_formed (up n p).
Proof. intros H. rewrite up_ancestor. now apply ancestor_well_formed. Qed.

(** A path is relative to each of its ancestors. *)
Lemma is_relative_to_ancestor (p : PurePath) (k : nat) :
  is_relative_to p (mkPath (root p) (firstn k (tail p))) = true.
Proof.
  unfold is_relative_to.
  destruct (Nat.lt_ge_cases k (List.length (tail p))) as [Hk | Hk].
  - apply orb_true_iff. right. apply existsb_exists.
    exists (mkPath (root p) (firstn k (tail p))). split; [|apply path_eqb_refl].
    unfold parents. apply in_map_iff.
    exists (List.length (tail p) - k - 1). split.
    + f_equal. f_equal. lia.
    + apply in_seq. lia.
  - rewrite firstn_all2 by exact Hk. destruct p. cbn [root tail].
    now rewrite path_eqb_refl.
Qed.

Lemma is_relative_to_up (p : PurePath) (n : nat) : is_relative_to p (up n p) = true.
Proof. rewrite up_ancestor. apply is_relative_to_ancestor. Qed.

(** Below the top, a well-formed path and its parent differ. *)
Lemma parent_differs (p : PurePath) :
  well_formed p -> tail p <> [] -> differs (parent p) (Some p) = true.
Proof.
  intros Hwf Hne. cbn [differs]. apply negb_true_iff.
  destruct (Pathlib.eqb (parent p) p) eqn:E; [|reflexivity].
  apply (path_eqb_eq _ _ (parent_well_formed p Hwf) Hwf) in E.
  pose proof (parent_tail_length p) as Hlen. rewrite E in Hlen.
  destruct (tail p); [congruence|simpl in Hlen; lia].
Qed.

Section WalkResults.
Variable fs : FileSystem.

(** What the loop of [discover_closest_flake] returns is a directory on
    the way up that holds the manifest, and no directory passed before it
    does. *)
Lemma flake_loop_sound fuel :
  forall current previous F,
    discover_closest_flake_loop fs fuel current previous = Some (Ok (Some F)) ->
    exists n,
      n <= List.length (tail current)
      /\ F = up n current
      /\ is_dir fs F = Ok true
      /\ is_file fs (joinpath F "flake.nix") = Ok true
      /\ forall m, m < n ->
           is_dir fs (up m current) = Ok true
           /\ is_file fs (joinpath (up m current) "flake.nix") = Ok false.
Proof.
  induction fuel as [|fuel IH]; intros current previous F; simpl;
    destruct (is_dir fs current) as [d|e] eqn:Hdir; cbn [step];
    try discriminate;
    destruct (d && differs current previous) eqn:Henter; try discriminate.
  apply andb_prop in Henter. destruct Henter as [-> _].
  destruct (is_file fs (joinpath current "flake.nix")) as [[|]|e] eqn:Hfile;
    cbn [step]; [| |discriminate].
  - intros H. inversion H; subst F. exists 0.
    split; [lia|]. split; [reflexivity|]. split; [exact Hdir|].
    split; [exact Hfile|]. intros m Hm. lia.
  - intros H. destruct (tail current) as [|x l] eqn:E.
    + rewrite (flake_loop_fixed_point fs fuel current E), Hdir in H.
      discriminate H.
    + destruct (IH _ _ _ H) as (n & Hn & -> & HdF & HfF & Hbelow).
      exists (S n). rewrite parent_tail_length, E in Hn. simpl in Hn.
      split; [simpl; lia|]. split; [reflexivity|]. split; [exact HdF|].
      split; [exact HfF|].
      intros [|m] Hm; [now split | apply Hbelow; lia].
Qed.

Lemma git_loop_sound fuel :
  forall current previous R,
    discover_git_loop fs fuel current previous = Some (Ok (Some R)) ->
    exists n,
      n <= List.length (tail current)
      /\ is_dir fs (up n current) = Ok true
      /\ git_found fs (up n current) R
      /\ forall m, m < n ->
           is_dir fs (up m current) = Ok true /\ git_passes fs (up m current).
Proof.
  induction fuel as [|fuel IH]; intros current previous R; simpl;
    destruct (is_dir fs current) as [d|e] eqn:Hdir; cbn [step];
    try discriminate;
    destruct (d && differs current previous) eqn:Henter; try discriminate.
  apply andb_prop in Henter. destruct Henter as [-> _].
  assert (Hup : git_passes fs current ->
                discover_git_loop fs fuel (parent current) (Some current)
                = Some (Ok (Some R)) ->
                exists n,
                  n <= List.length (tail current)
                  /\ is_dir fs (up n current) = Ok true
                  /\ git_found fs (up n current) R
                  /\ forall m, m < n ->
                       is_dir fs (up m current) = Ok true
                       /\ git_passes fs (up m current)).
  { intros Hpass H. destruct (tail current) as [|x l] eqn:E.
    - rewrite (git_loop_fixed_point fs fuel current E), Hdir in H.
      discriminate H.
    - destruct (IH _ _ _ H) as (n & Hn & HdR & Hfound & Hbelow).
      exists (S n). rewrite parent_tail_length, E in Hn. simpl in Hn.
      split; [simpl; lia|]. split; [exact HdR|]. split; [exact Hfound|].
      intros [|m] Hm; [now split | apply Hbelow; lia]. }
  destruct (is_dir fs (joinpath current ".git")) as [[|]|e] eqn:Hgd; cbn [step];
    [| |discriminate].
  { intros H. inversion H; subst R. exists 0.
    split; [lia|]. split; [exact Hdir|]. split; [now left|]. intros m Hm. lia. }
  destruct (is_file fs (joinpath current ".git")) as [[|]|e] eqn:Hgf; cbn [step];
    [| |discriminate].
  2:{ apply Hup. split; [exact Hgd | now left]. }
  destruct (read fs (joinpath current ".git")) as [text|e] eqn:Hread; cbn [step];
    [|discriminate].
  destruct (Str.startswith (Str.strip text) "gitdir: ") eqn:Hkey.
  2:{ apply Hup. split; [exact Hgd|]. right. split; [exact Hgf|]. eauto. }
  destruct (split_after_key _ Hkey) as (p & rest & Hsplit).
  rewrite Hsplit. cbn. intros H. inversion H; subst R. exists 0.
  split; [lia|]. split; [exact Hdir|]. split; [|intros m Hm; lia].
  right. split; [exact Hgd|]. split; [exact Hgf|].
  exists text, p, rest. auto.
Qed.

(** An exception out of the loop of [discover_closest_flake] is one that
    the file system raised at a directory on the way up. *)
Lemma flake_loop_raises fuel :
  forall current previous e,
    discover_closest_flake_loop fs fuel current previous = Some (Raise e) ->
    exists n,
      n <= List.length (tail current)
      /\ (is_dir fs (up n current) = Raise e
          \/ is_file fs (joinpath (up n current) "flake.nix") = Raise e).
Proof.
  induction fuel as [|fuel IH]; intros current previous e; simpl;
    destruct (is_dir fs current) as [d|e'] eqn:Hdir; cbn [step].
  - destruct (d && differs current previous); discriminate.
  - intros [= ->]. exists 0. split; [lia|now left].
  - destruct (d && differs current previous); [|discriminate].
    destruct (is_file fs (joinpath current "flake.nix")) as [[|]|e'] eqn:Hfile;
      cbn [step].
    + discriminate.
    + intros H. destruct (tail current) as [|x l] eqn:E.
      * rewrite (flake_loop_fixed_point fs fuel current E), Hdir in H.
        discriminate H.
      * destruct (IH _ _ _ H) as (n & Hn & Hr).
        exists (S n). rewrite parent_tail_length, E in Hn. simpl in Hn.
        split; [simpl; lia|exact Hr].
    + intros [= ->]. exists 0. split; [lia|now right].
  - intros [= ->]. exists 0. split; [lia|now left].
Qed.

(** The same for [discover_git]: the calls that can raise are the
    directory test, the two tests of [.git], and the reading of a regular
    file [.git]. *)
Lemma git_loop_raises fuel :
  forall current previous e,
    discover_git_loop fs fuel current previous = Some (Raise e) ->
    exists n,
      n <= List.length (tail current)
      /\ (is_dir fs (up n current) = Raise e
          \/ is_dir fs (joinpath (up n current) ".git") = Raise e
          \/ is_file fs (joinpath (up n current) ".git") = Raise e
          \/ (is_file fs (joinpath (up n current) ".git") = Ok true
              /\ read fs (joinpath (up n current) ".git") = Raise e)).
Proof.
  induction fuel as [|fuel IH]; intros current previous e; simpl;
    destruct (is_dir fs current) as [d|e'] eqn:Hdir; cbn [step].
  - destruct (d && differs current previous); discriminate.
  - intros [= ->]. exists 0. split; [lia|now left].
  - destruct (d && differs current previous); [|discriminate].
    assert (Hup : discover_git_loop fs fuel (parent current) (Some current)
                  = Some (Raise e) ->
                  exists n,
                    n <= List.length (tail current)
                    /\ (is_dir fs (up n current) = Raise e
                        \/ is_dir fs (joinpath (up n current) ".git") = Raise e
                        \/ is_file fs (joinpath (up n current) ".git") = Raise e
                        \/ (is_file fs (joinpath (up n current) ".git") = Ok true
                            /\ read fs (joinpath (up n current) ".git") = Raise e))).
    { intros H. destruct (tail current) as [|x l] eqn:E.
      - rewrite (git_loop_fixed_point fs fuel current E), Hdir in H.
        discriminate H.
      - destruct (IH _ _ _ H) as (n & Hn & Hr).
        exists (S n). rewrite parent_tail_length, E in Hn. simpl in Hn.
        split; [simpl; lia|exact Hr]. }
    destruct (is_dir fs (joinpath current ".git")) as [[|]|e'] eqn:Hgd;
      cbn [step].
    + discriminate.
    + destruct (is_file fs (joinpath current ".git")) as [[|]|e'] eqn:Hgf;
        cbn [step].
      * destruct (read fs (joinpath current ".git")) as [text|e'] eqn:Hread;
          cbn [step].
        -- destruct (Str.startswith (Str.strip text) "gitdir: ") eqn:Hkey;
             [|exact Hup].
           destruct (split_after_key _ Hkey) as (p & rest & Hsplit).
           rewrite Hsplit. cbn. discriminate.
        -- intros [= ->]. exists 0. split; [lia|]. right. right. right.
           now split.
      * exact Hup.
      * intros [= ->]. exists 0. split; [lia|]. right. right. now left.
    + intros [= ->]. exists 0. split; [lia|]. right. now left.
  - intros [= ->]. exists 0. split; [lia|now left].
Qed.

End WalkResults.

Section Discovery.
Variable fs : FileSystem.

Lemma resolve_well_formed location start :
  resolve fs location = Ok start -> well_formed start.
Proof.
  unfold resolve. destruct (realpath fs (Pathlib.str location)); cbn [bind];
    [|discriminate].
  intros H. inversion H; subst. apply Path_well_formed.
Qed.

(** What [discover_closest_flake] returns lies on the way up from the
    resolved start. *)
Lemma discover_closest_flake_on_walk location F :
  discover_closest_flake fs location = Ok (Some F) ->
  exists start n,
    resolve fs location = Ok start
    /\ n <= List.length (tail start)
    /\ F = up n start
    /\ is_dir fs F = Ok true
    /\ is_file fs (joinpath F "flake.nix") = Ok true
    /\ forall m, m < n ->
         is_dir fs (up m start) = Ok true
         /\ is_file fs (joinpath (up m start) "flake.nix") = Ok false.
Proof.
  unfold discover_closest_flake.
  destruct (resolve fs location) as [start|e] eqn:Hres; cbn [bind];
    [|discriminate].
  unfold discover_closest_flake_walk.
  destruct (discover_closest_flake_loop fs (walk_fuel start) start None)
    as [r|] eqn:E; [|discriminate].
  intros ->. destruct (flake_loop_sound fs _ _ _ _ E) as (n & H).
  exists start, n. split; [reflexivity|exact H].
Qed.

(** X1.  What [discover_closest_flake] returns is an ancestor of the
    resolved start (or the start itself), the start is relative to it, it is
    a directory holding a regular file [flake.nix], and it is the closest
    one: no directory passed on the way up holds the file. *)
Theorem discover_closest_flake_sound location F :
  discover_closest_flake fs location = Ok (Some F) ->
  exists start n,
    resolve fs location = Ok start
    /\ n <= List.length (tail start)
    /\ F = up n start
    /\ is_relative_to start F = true
    /\ is_dir fs F = Ok true
    /\ is_file fs (joinpath F "flake.nix") = Ok true
    /\ forall m, m < n ->
         is_file fs (joinpath (up m start) "flake.nix") = Ok false.
Proof.
  intros HF.
  destruct (discover_closest_flake_on_walk _ _ HF)
    as (start & n & Hres & Hn & -> & Hd & Hf & Hbelow).
  exists start, n. repeat split; try assumption.
  - apply is_relative_to_up.
  - intros m Hm. now apply Hbelow.
Qed.

(** The walk of [discover_closest_flake] over directories finds the
    nearest manifest, when every test on the way returns. *)
Lemma flake_walk_finds n :
  forall current previous,
    well_formed current ->
    differs current previous = true ->
    n <= List.length (tail current) ->
    (forall m, m <= n -> is_dir fs (up m current) = Ok true) ->
    (forall m, m < n ->
       exists b, is_file fs (joinpath (up m current) "flake.nix") = Ok b) ->
    is_file fs (joinpath (up n current) "flake.nix") = Ok true ->
    exists m,
      m <= n
      /\ discover_closest_flake_walk fs current previous = Ok (Some (up m current))
      /\ is_file fs (joinpath (up m current) "flake.nix") = Ok true
      /\ forall k, k < m ->
           is_file fs (joinpath (up k current) "flake.nix") = Ok false.
Proof.
  induction n as [|n IH];
    intros current previous Hwf Hdiff Hn Hdirs Hasks Hfile;
    rewrite discover_closest_flake_walk_unfold;
    pose proof (Hdirs 0 (Nat.le_0_l _)) as Hhere0; cbn [up] in Hhere0;
    rewrite Hhere0; cbn [bind andb]; rewrite Hdiff.
  - simpl in Hfile. rewrite Hfile. cbn [bind]. exists 0.
    split; [lia|]. split; [reflexivity|]. split; [exact Hfile|].
    intros k Hk. lia.
  - destruct (Hasks 0 (Nat.lt_0_succ _)) as [b Hhere]. cbn [up] in Hhere.
    rewrite Hhere. cbn [bind]. destruct b.
    + exists 0. split; [lia|]. split; [reflexivity|]. split; [exact Hhere|].
      intros k Hk. lia.
    + assert (Hne : tail current <> [])
        by (destruct (tail current); simpl in Hn; [lia|discriminate]).
      destruct (IH (parent current) (Some current)) as (m & Hm & Hw & Hf & Hbelow).
      * now apply parent_well_formed.
      * now apply parent_differs.
      * rewrite parent_tail_length. lia.
      * intros m Hm. apply (Hdirs (S m)). lia.
      * intros m Hm. apply (Hasks (S m)). lia.
      * exact Hfile.
      * exists (S m). split; [lia|]. split; [exact Hw|]. split; [exact Hf|].
        intros [|k] Hk; [exact Hhere | apply Hbelow; lia].
Qed.

(** X2.  When the directories from the resolved start up to some level
    all exist, the tests for [flake.nix] below that level all return, and
    the directory at that level holds [flake.nix],
    [discover_closest_flake] returns a location, and it is the nearest
    directory, from the start upwards, that holds the file. *)
Theorem discover_closest_flake_finds location start n :
  resolve fs location = Ok start ->
  n <= List.length (tail start) ->
  (forall m, m <= n -> is_dir fs (up m start) = Ok true) ->
  (forall m, m < n ->
     exists b, is_file fs (joinpath (up m start) "flake.nix") = Ok b) ->
  is_file fs (joinpath (up n start) "flake.nix") = Ok true ->
  exists m,
    m <= n
    /\ discover_closest_flake fs location = Ok (Some (up m start))
    /\ is_file fs (joinpath (up m start) "flake.nix") = Ok true
    /\ forall k, k < m ->
         is_file fs (joinpath (up k start) "flake.nix") = Ok false.
Proof.
  intros Hres Hn Hdirs Hasks Hfile.
  destruct (flake_walk_finds n start None (resolve_well_formed _ _ Hres) eq_refl
              Hn Hdirs Hasks Hfile) as (m & Hm & Hw & Hf & Hbelow).
  exists m. split; [exact Hm|]. split; [|split; assumption].
  unfold discover_closest_flake. rewrite Hres. cbn [bind]. exact Hw.
Qed.

(** X3.  What [discover_git] returns was found at a directory on the way
    up from the resolved start: either that directory holds a directory
    [.git] and is the result, or it holds a regular file [.git] whose
    stripped text starts with the key, and the result is the path written
    between the key and its next occurrence.  Every directory passed before
    holds neither. *)
Theorem discover_git_sound location R :
  discover_git fs location = Ok (Some R) ->
  exists start n,
    resolve fs location = Ok start
    /\ n <= List.length (tail start)
    /\ is_dir fs (up n start) = Ok true
    /\ git_found fs (up n start) R
    /\ forall m, m < n ->
         is_dir fs (up m start) = Ok true /\ git_passes fs (up m start).
Proof.
  unfold discover_git.
  destruct (resolve fs location) as [start|e] eqn:Hres; cbn [bind];
    [|discriminate].
  unfold discover_git_walk.
  destruct (discover_git_loop fs (walk_fuel start) start None) as [r|] eqn:E;
    [|discriminate].
  intros ->. destruct (git_loop_sound fs _ _ _ _ E) as (n & H).
  exists start, n. split; [reflexivity|exact H].
Qed.

Lemma git_walk_finds n :
  forall current previous,
    well_formed current ->
    differs current previous = true ->
    n <= List.length (tail current) ->
    (forall m, m <= n -> is_dir fs (up m current) = Ok true) ->
    (forall m, m < n ->
       is_dir fs (joinpath (up m current) ".git") = Ok false
       /\ is_file fs (joinpath (up m current) ".git") = Ok false) ->
    is_dir fs (joinpath (up n current) ".git") = Ok true ->
    discover_git_walk fs current previous = Ok (Some (up n current)).
Proof.
  induction n as [|n IH]; intros current previous Hwf Hdiff Hn Hdirs Hnone Hgit;
    rewrite discover_git_walk_unfold;
    pose proof (Hdirs 0 (Nat.le_0_l _)) as Hhere0; cbn [up] in Hhere0;
    rewrite Hhere0; cbn [bind andb]; rewrite Hdiff; cbv zeta.
  - simpl in Hgit. now rewrite Hgit.
  - destruct (Hnone 0 (Nat.lt_0_succ _)) as [Hd Hf]. simpl in Hd, Hf.
    rewrite Hd. cbn [bind]. rewrite Hf. cbn [bind].
    assert (Hne : tail current <> [])
      by (destruct (tail current); simpl in Hn; [lia|discriminate]).
    apply (IH (parent current) (Some current)).
    + now apply parent_well_formed.
    + now apply parent_differs.
    + rewrite parent_tail_length. lia.
    + intros m Hm. apply (Hdirs (S m)). lia.
    + intros m Hm. apply (Hnone (S m)). lia.
    + exact Hgit.
Qed.

(** X4.  When the directories from the resolved start up to some level
    all exist, none below that level has an entry [.git], and the one at
    that level holds a directory [.git], [discover_git] returns the
    directory at that level: the nearest enclosing repository. *)
Theorem discover_git_finds location start n :
  resolve fs location = Ok start ->
  n <= List.length (tail start) ->
  (forall m, m <= n -> is_dir fs (up m start) = Ok true) ->
  (forall m, m < n ->
     is_dir fs (joinpath (up m start) ".git") = Ok false
     /\ is_file fs (joinpath (up m start) ".git") = Ok false) ->
  is_dir fs (joinpath (up n start) ".git") = Ok true ->
  discover_git fs location = Ok (Some (up n start)).
Proof.
  intros Hres Hn Hdirs Hnone Hgit. unfold discover_git. rewrite Hres. cbn [bind].
  exact (git_walk_finds n start None (resolve_well_formed _ _ Hres) eq_refl
           Hn Hdirs Hnone Hgit).
Qed.

(** X5.  The discovery functions raise nothing of their own: an
    exception out of them is one that the file system raised.  For
    [discover_closest_flake] it comes from resolving the start, or from the
    directory test or the test for [flake.nix] at a directory on the way up;
    for [discover_git] from resolving the start, or from the directory test,
    the two tests of [.git] or the reading of a regular file [.git] at a
    directory on the way up.  In particular the indexing of the split
    pointer text never raises.  An exception of resolving the start is
    raised by both. *)
Theorem discovery_raises location e :
  (discover_closest_flake fs location = Raise e ->
   realpath fs (Pathlib.str location) = Raise e
   \/ exists start n,
        resolve fs location = Ok start
        /\ n <= List.length (tail start)
        /\ (is_dir fs (up n start) = Raise e
            \/ is_file fs (joinpath (up n start) "flake.nix") = Raise e))
  /\ (discover_git fs location = Raise e ->
      realpath fs (Pathlib.str location) = Raise e
      \/ exists start n,
           resolve fs location = Ok start
           /\ n <= List.length (tail start)
           /\ (is_dir fs (up n start) = Raise e
               \/ is_dir fs (joinpath (up n start) ".git") = Raise e
               \/ is_file fs (joinpath (up n start) ".git") = Raise e
               \/ (is_file fs (joinpath (up n start) ".git") = Ok true
                   /\ read fs (joinpath (up n start) ".git") = Raise e)))
  /\ (realpath fs (Pathlib.str location) = Raise e ->
      discover_closest_flake fs location = Raise e
      /\ discover_git fs location = Raise e).
Proof.
  assert (Hres : forall e', resolve fs location = Raise e' ->
                            realpath fs (Pathlib.str location) = Raise e').
  { unfold resolve. intros e'.
    destruct (realpath fs (Pathlib.str location)); cbn [bind]; [discriminate|].
    now intros [= ->]. }
  split; [|split].
  - unfold discover_closest_flake.
    destruct (resolve fs location) as [start|e'] eqn:Hr; cbn [bind].
    + unfold discover_closest_flake_walk.
      destruct (discover_closest_flake_loop fs (walk_fuel start) start None)
        as [r|] eqn:E; [|discriminate].
      intros ->. right. destruct (flake_loop_raises fs _ _ _ _ E) as (n & H).
      exists start, n. split; [reflexivity|exact H].
    + intros [= ->]. left. now apply Hres.
  - unfold discover_git.
    destruct (resolve fs location) as [start|e'] eqn:Hr; cbn [bind].
    + unfold discover_git_walk.
      destruct (discover_git_loop fs (walk_fuel start) start None) as [r|] eqn:E;
        [|discriminate].
      intros ->. right. destruct (git_loop_raises fs _ _ _ _ E) as (n & H).
      exists start, n. split; [reflexivity|exact H].
    + intros [= ->]. left. now apply Hres.
  - intros H. unfold discover_closest_flake, discover_git, resolve.
    rewrite H. split; reflexivity.
Qed.

(** X6.  A repository root and a manifest location found from the same
    start are nested one way or the other, as long as the start is relative
    to the repository root (the root was not redirected by a pointer file):
    the manifest location is relative to the root, or the root is relative
    to the manifest location. *)
Theorem repository_and_manifest_nested location start R F :
  resolve fs location = Ok start ->
  discover_git fs location = Ok (Some R) ->
  discover_closest_flake fs location = Ok (Some F) ->
  is_relative_to start R = true ->
  is_relative_to F R = true \/ is_relative_to R F = true.
Proof.
  intros Hres HR HF Hrel.
  pose proof (resolve_well_formed _ _ Hres) as Hwf.
  destruct (is_relative_to_prefix start R Hwf (discover_git_well_formed _ _ _ HR) Hrel)
    as (k & Hk & ->).
  destruct (discover_closest_flake_on_walk _ _ HF) as (start' & n & Hres' & Hn & -> & _).
  assert (start' = start) by congruence. subst start'.
  rewrite up_ancestor. set (j := List.length (tail start) - n).
  destruct (Nat.le_ge_cases k j) as [Hkj | Hjk].
  - left.
    replace (firstn k (tail start)) with (firstn k (firstn j (tail start)))
      by (rewrite firstn_firstn; f_equal; lia).
    apply (is_relative_to_ancestor (mkPath (root start) (firstn j (tail start))) k).
  - right.
    replace (firstn j (tail start)) with (firstn j (firstn k (tail start)))
      by (rewrite firstn_firstn; f_equal; lia).
    apply (is_relative_to_ancestor (mkPath (root start) (firstn k (tail start))) j).
Qed.

(** X7.  Discovery is stable on what it finds in the tree.  Started from
    a manifest location it returned, [discover_closest_flake] returns that
    location again; started from a repository root it returned, a directory
    that holds a directory [.git], [discover_git] returns that root again.
    Both need the location to resolve to itself. *)
Theorem discovery_idempotent location :
  (forall F,
     discover_closest_flake fs location = Ok (Some F) ->
     realpath fs (Pathlib.str F) = Ok (Pathlib.str F) ->
     discover_closest_flake fs F = Ok (Some F))
  /\ (forall R,
        discover_git fs location = Ok (Some R) ->
        is_dir fs R = Ok true ->
        is_dir fs (joinpath R ".git") = Ok true ->
        realpath fs (Pathlib.str R) = Ok (Pathlib.str R) ->
        discover_git fs R = Ok (Some R)).
Proof.
  split.
  - intros F HF Hreal.
    pose proof (discover_closest_flake_well_formed _ _ _ HF) as Hwf.
    destruct (discover_closest_flake_on_walk _ _ HF)
      as (start & n & _ & _ & _ & Hd & Hf & _).
    unfold discover_closest_flake, resolve. rewrite Hreal. cbn [bind].
    rewrite (Path_str F Hwf), discover_closest_flake_walk_unfold, Hd.
    cbn [bind differs andb]. now rewrite Hf.
  - intros R HR Hd Hg Hreal.
    pose proof (discover_git_well_formed _ _ _ HR) as Hwf.
    unfold discover_git, resolve. rewrite Hreal. cbn [bind].
    rewrite (Path_str R Hwf), discover_git_walk_unfold, Hd.
    cbn [bind differs andb]. cbv zeta. now rewrite Hg.
Qed.

End Discovery.

Lemma discover_closest_flake_sound_witness :
  exists start n,
    resolve fs_rootflake (Path ".") = Ok start
    /\ n <= List.length (tail start)
    /\ Path "/r" = up n start
    /\ is_relative_to start (Path "/r") = true
    /\ is_dir fs_rootflake (Path "/r") = Ok true
    /\ is_file fs_rootflake (joinpath (Path "/r") "flake.nix") = Ok true
    /\ forall m, m < n ->
         is_file fs_rootflake (joinpath (up m start) "flake.nix") = Ok false.
Proof.
  apply (discover_closest_flake_sound fs_rootflake (Path ".") (Path "/r")).
  reflexivity.
Defined.

Lemma discover_closest_flake_finds_witness :
  exists m,
    m <= 2
    /\ discover_closest_flake fs_rootflake (Path ".")
       = Ok (Some (up m (Path "/r/sub/dir")))
    /\ is_file fs_rootflake (joinpath (up m (Path "/r/sub/dir")) "flake.nix")
       = Ok true
    /\ forall k, k < m ->
         is_file fs_rootflake (joinpath (up k (Path "/r/sub/dir")) "flake.nix")
         = Ok false.
Proof.
  apply (discover_closest_flake_finds fs_rootflake (Path ".") (Path "/r/sub/dir") 2).
  - reflexivity.
  - simpl. lia.
  - intros [|[|[|m]]] Hm; try reflexivity. lia.
  - intros m Hm. eexists. reflexivity.
  - reflexivity.
Defined.

Lemma discover_git_sound_witness :
  exists start n,
    resolve fs_worktree (Path ".") = Ok start
    /\ n <= List.length (tail start)
    /\ is_dir fs_worktree (up n start) = Ok true
    /\ git_found fs_worktree (up n start) (Path "/elsewhere/.git")
    /\ forall m, m < n ->
         is_dir fs_worktree (up m start) = Ok true
         /\ git_passes fs_worktree (up m start).
Proof.
  apply (discover_git_sound fs_worktree (Path ".") (Path "/elsewhere/.git")).
  reflexivity.
Defined.

Lemma discover_git_finds_witness :
  discover_git fs_rootflake (Path ".") = Ok (Some (up 2 (Path "/r/sub/dir"))).
Proof.
  apply (discover_git_finds fs_rootflake (Path ".") (Path "/r/sub/dir") 2).
  - reflexivity.
  - simpl. lia.
  - intros [|[|[|m]]] Hm; try reflexivity. lia.
  - intros [|[|m]] Hm; try (split; reflexivity). lia.
  - reflexivity.
Defined.

Lemma discovery_raises_witness :
  realpath fs_locked (Pathlib.str (Path ".")) = Raise OSError
  \/ exists start n,
       resolve fs_locked (Path ".") = Ok start
       /\ n <= List.length (tail start)
       /\ (is_dir fs_locked (up n start) = Raise OSError
           \/ is_file fs_locked (joinpath (up n start) "flake.nix") = Raise OSError).
Proof.
  apply (proj1 (discovery_raises fs_locked (Path ".") OSError)).
  reflexivity.
Defined.

Lemma repository_and_manifest_nested_witness :
  is_relative_to (Path "/r/sub/dir") (Path "/r") = true
  \/ is_relative_to (Path "/r") (Path "/r/sub/dir") = true.
Proof.
  apply (repository_and_manifest_nested fs_monorepo (Path ".") (Path "/r/sub/dir")
           (Path "/r") (Path "/r/sub/dir")); reflexivity.
Defined.

Lemma discovery_idempotent_witness :
  discover_closest_flake fs_rootflake (Path "/r") = Ok (Some (Path "/r")).
Proof.
  apply (proj1 (discovery_idempotent fs_rootflake (Path ".")) (Path "/r"));
    reflexivity.
Defined.

(** * More on the resolver *)

Lemma prefix_nil (s : string) : String.prefix "" s = true.
Proof. now destruct s. Qed.

Lemma contains_append (sub a b : string) :
  Str.contains sub a = true -> Str.contains sub (a ++ b) = true.
Proof.
  assert (Hpre : forall x y, String.prefix x y = true ->
                             String.prefix x (y ++ b) = true).
  { induction x as [|c x IH]; intros y H; [apply prefix_nil|].
    destruct y as [|d y]; [discriminate H|]. simpl in *.
    destruct (ascii_dec c d); [now apply IH|discriminate H]. }
  induction a as [|c a IH]; intros H.
  - simpl in H. rewrite orb_false_r in H.
    destruct sub; [|discriminate H].
    destruct b; reflexivity.
  - cbn [Str.contains] in H. apply orb_prop in H.
    change (String c a ++ b) with (String c (a ++ b)). cbn [Str.contains].
    apply orb_true_iff. destruct H as [H | H].
    + left. exact (Hpre _ (String c a) H).
    + right. now apply IH.
Qed.

Lemma git_file_url_has_colon (rest : string) :
  Str.contains ":" ("git+file://" ++ rest) = true.
Proof.
  change ("git+file://" ++ rest) with ("git+file:" ++ ("//" ++ rest)).
  now apply contains_append.
Qed.

Section ResolverMore.
Context {Remote : Type}.
Implicit Types (fs : FileSystem) (host : Host Remote) (target : option Remote).

Lemma repo_url_prefix R F url :
  Flake.repo_url R F = Ok url ->
  exists rest, url = "git+file://" ++ Pathlib.str R ++ rest.
Proof.
  unfold Flake.repo_url. cbv zeta. destruct F as [f|].
  - destruct (negb (Pathlib.eqb f R) && is_relative_to f R).
    + destruct (relative_to f R) as [rel|e]; cbn [bind]; [|discriminate].
      intros [= <-]. exists ("?dir=" ++ Pathlib.str rel). reflexivity.
    + intros [= <-]. exists "". rewrite append_nil_r. reflexivity.
  - intros [= <-]. exists "". rewrite append_nil_r. reflexivity.
Qed.

(** The attribute of a returned reference is a quoted, non-empty name. *)
Lemma parse_attr_quoted fs host raw target r :
  Flake.parse fs host raw target = Ok r ->
  exists name, Flake.attr r = Flake.quoted name /\ name <> "".
Proof.
  intros Hp. destruct (Flake._re raw) as [[p a]|] eqn:Hm.
  2:{ unfold Flake.parse in Hp. rewrite Hm in Hp. discriminate Hp. }
  rewrite (parse_matched _ _ _ _ _ _ Hm) in Hp.
  destruct (Flake.config_name host a target) as [name|e] eqn:Hn;
    [|discriminate Hp].
  cbn [bind] in Hp. exists name. split.
  - destruct (Str.contains ":" p); [now inversion Hp|].
    destruct (discover_git fs (Path p)) as [[R|]|e]; cbn [bind] in Hp;
      [| now inversion Hp | discriminate Hp].
    destruct (discover_closest_flake fs (Path p)) as [F|e]; cbn [bind] in Hp;
      [|discriminate Hp].
    destruct (Flake.repo_url R F); cbn [bind] in Hp; [|discriminate Hp].
    now inversion Hp.
  - apply truthy_not_empty. exact (config_name_truthy _ _ _ _ Hn).
Qed.

(** A location that is a text has a [:]. *)
Lemma parse_text_location fs host raw target r s :
  Flake.parse fs host raw target = Ok r ->
  Flake.path r = StrV s ->
  Str.contains ":" s = true.
Proof.
  intros Hp. destruct (Flake._re raw) as [[p a]|] eqn:Hm.
  2:{ unfold Flake.parse in Hp. rewrite Hm in Hp. discriminate Hp. }
  rewrite (parse_matched _ _ _ _ _ _ Hm) in Hp.
  destruct (Flake.config_name host a target) as [name|e]; [|discriminate Hp].
  cbn [bind] in Hp. destruct (Str.contains ":" p) eqn:Hc.
  - inversion Hp; subst r. cbn [Flake.path]. now intros [= <-].
  - destruct (discover_git fs (Path p)) as [[R|]|e]; cbn [bind] in Hp;
      [| |discriminate Hp].
    + destruct (discover_closest_flake fs (Path p)) as [F|e]; cbn [bind] in Hp;
        [|discriminate Hp].
      destruct (Flake.repo_url R F) as [url|e] eqn:Hu; cbn [bind] in Hp;
        [|discriminate Hp].
      inversion Hp; subst r. cbn [Flake.path].
      destruct (repo_url_prefix _ _ _ Hu) as [rest ->].
      intros [= <-]. apply git_file_url_has_colon.
    + inversion Hp; subst r. cbn [Flake.path]. discriminate.
Qed.

(** X8.  The location of every reference returned by [parse] is of one
    of three kinds: the path part itself, when it contains [:]; a text
    that starts with [git+file://] and the repository root, when the path
    part has no [:] and a repository is found; the [Path] of the path
    part, when no repository is found.  So a location that is a text always
    contains [:], and a bare path is never returned inside a repository. *)
Theorem parse_location_kinds fs host raw target r :
  Flake.parse fs host raw target = Ok r ->
  exists p a,
    Flake._re raw = Some (p, a)
    /\ ((Str.contains ":" p = true /\ Flake.path r = StrV p)
        \/ (Str.contains ":" p = false
            /\ exists R rest,
                 discover_git fs (Path p) = Ok (Some R)
                 /\ Flake.path r = StrV ("git+file://" ++ Pathlib.str R ++ rest))
        \/ (Str.contains ":" p = false
            /\ discover_git fs (Path p) = Ok None
            /\ Flake.path r = PathV (Path p)))
    /\ forall s, Flake.path r = StrV s -> Str.contains ":" s = true.
Proof.
  intros Hp. destruct (Flake._re raw) as [[p a]|] eqn:Hm.
  2:{ unfold Flake.parse in Hp. rewrite Hm in Hp. discriminate Hp. }
  exists p, a. split; [reflexivity|].
  rewrite (parse_matched _ _ _ _ _ _ Hm) in Hp.
  destruct (Flake.config_name host a target) as [name|e]; [|discriminate Hp].
  cbn [bind] in Hp. destruct (Str.contains ":" p) eqn:Hc.
  - inversion Hp; subst r. cbn [Flake.path]. split; [now left|].
    intros s H. now inversion H; subst.
  - destruct (discover_git fs (Path p)) as [[R|]|e]; cbn [bind] in Hp;
      [| |discriminate Hp].
    + destruct (discover_closest_flake fs (Path p)) as [F|e]; cbn [bind] in Hp;
        [|discriminate Hp].
      destruct (Flake.repo_url R F) as [url|e] eqn:Hu; cbn [bind] in Hp;
        [|discriminate Hp].
      inversion Hp; subst r. cbn [Flake.path].
      destruct (repo_url_prefix _ _ _ Hu) as [rest ->]. split.
      * right. left. split; [reflexivity|]. now exists R, rest.
      * intros s H. inversion H; subst. apply git_file_url_has_colon.
    + inversion Hp; subst r. cbn [Flake.path]. split.
      * right. right. now repeat split.
      * intros s H. discriminate H.
Qed.

(** X9.  When the path part has no [:] and the directory test on its
    resolved form returns [False] (as for a regular file), [parse] returns
    the bare path without looking for a repository above it.  When that
    test raises, [discover_git] and [parse] raise the same exception. *)
Theorem parse_not_a_directory fs host raw target p a name start :
  Flake._re raw = Some (p, a) ->
  Str.contains ":" p = false ->
  Flake.config_name host a target = Ok name ->
  resolve fs (Path p) = Ok start ->
  (is_dir fs start = Ok false ->
   discover_git fs (Path p) = Ok None
   /\ Flake.parse fs host raw target
      = Ok (Flake.mk (PathV (Path p)) (Flake.quoted name)))
  /\ (forall e,
        is_dir fs start = Raise e ->
        discover_git fs (Path p) = Raise e
        /\ Flake.parse fs host raw target = Raise e).
Proof.
  intros Hm Hc Hn Hres.
  rewrite (parse_matched _ _ _ _ _ _ Hm), Hn. cbn [bind]. rewrite Hc.
  unfold discover_git. rewrite Hres. cbn [bind].
  rewrite discover_git_walk_unfold. split.
  - intros Hd. rewrite Hd. cbn [bind andb]. split; reflexivity.
  - intros e Hd. rewrite Hd. cbn [bind]. split; reflexivity.
Qed.

(** The printed form of a reference whose attribute is quoted is refused
    by the pattern, whatever its location. *)
Lemma quoted_form_unmatched (loc name : string) :
  Flake._re (loc ++ "#" ++ Flake.quoted name) = None.
Proof.
  apply _re_none.
  pose proof (span_append path_char loc) as Hs.
  pose proof (span_all_in path_char loc) as Ha.
  destruct (span path_char loc) as [p0 r0] eqn:E. cbn [fst snd] in *.
  rewrite all_in_path_char in Ha. apply negb_true_iff in Ha.
  destruct r0 as [|c r0].
  - rewrite append_nil_r in Hs. subst p0.
    exists loc, (Flake.quoted name). repeat split; [exact Ha|].
    right. apply quoted_has_dquote.
  - assert (c = Str.hash) as ->.
    { apply path_char_false. apply (span_rest path_char loc c r0). now rewrite E. }
    exists p0, (r0 ++ "#" ++ Flake.quoted name). split.
    + rewrite <- Hs. now rewrite append_assoc.
    + split; [exact Ha|]. right. rewrite occurs_append.
      apply orb_true_iff. right.
      change ("#" ++ Flake.quoted name) with (String Str.hash (Flake.quoted name)).
      cbn [occurs]. rewrite quoted_has_dquote. apply orb_true_r.
Qed.

(** X10.  No reference returned by [parse] can be parsed back from its
    printed form: on any file system, any host and with any remote handle,
    [parse] fails its assertion on it. *)
Theorem printed_form_is_refused fs host raw target r :
  Flake.parse fs host raw target = Ok r ->
  forall fs' (host' : Host Remote) target',
    Flake.parse fs' host' (Flake.__str__ r) target'
    = Raise (AssertionError ("got no matches for " ++ Flake.__str__ r)).
Proof.
  intros Hp fs' host' target'.
  destruct (parse_attr_quoted _ _ _ _ _ Hp) as (name & Hattr & _).
  unfold Flake.parse, Flake.__str__. rewrite Hattr.
  now rewrite quoted_form_unmatched.
Qed.

(** X11.  A reference whose location is a text without [#] is returned
    again, on any file system and any host, by parsing that location, [#]
    and the configuration name, as long as the name has neither [#] nor a
    double quote. *)
Theorem reparse_unquoted_form fs host raw target r s :
  Flake.parse fs host raw target = Ok r ->
  Flake.path r = StrV s ->
  occurs Str.hash s = false ->
  exists name,
    Flake.attr r = Flake.quoted name
    /\ (occurs Str.hash name = false ->
        occurs Str.dquote name = false ->
        forall fs' (host' : Host Remote) target',
          Flake.parse fs' host' (s ++ "#" ++ name) target' = Ok r).
Proof.
  intros Hp Hs Hhash.
  destruct (parse_attr_quoted _ _ _ _ _ Hp) as (name & Hattr & Hne).
  pose proof (parse_text_location _ _ _ _ _ _ Hp Hs) as Hcolon.
  exists name. split; [exact Hattr|]. intros H1 H2 fs' host' target'.
  assert (Hm : Flake._re (s ++ "#" ++ name) = Some (s, name)).
  { apply _re_groups. right. repeat split; assumption. }
  rewrite (parse_matched _ _ _ _ _ _ Hm), (config_name_explicit _ _ _ Hne).
  cbn [bind]. rewrite Hcolon. destruct r as [rp ra]. cbn in Hs, Hattr.
  now subst.
Qed.

(** X12.  An exception of the probe that [get_hostname] does not catch
    passes through [get_hostname] and makes [parse] raise it as soon as the
    attribute part is empty, before any discovery and whatever the path
    part is. *)
Theorem parse_probe_exception fs host raw remote p e :
  Flake._re raw = Some (p, "") ->
  run_wrapper host ["uname"; "-n"] true remote = Raise e ->
  probe_failure e = false ->
  get_hostname host (Some remote) = Raise e
  /\ Flake.parse fs host raw (Some remote) = Raise e.
Proof.
  intros Hm Hrun Hcaught.
  assert (Hh : get_hostname host (Some remote) = Raise e).
  { unfold get_hostname. rewrite Hrun. cbn [bind try_except]. now rewrite Hcaught. }
  split; [exact Hh|].
  rewrite (parse_matched _ _ _ _ _ _ Hm). unfold Flake.config_name.
  cbn [Str.truthy]. now rewrite Hh.
Qed.

End ResolverMore.

Lemma parse_location_kinds_witness :
  exists p a,
    Flake._re ".#web" = Some (p, a)
    /\ ((Str.contains ":" p = true
         /\ StrV "git+file:///r?dir=sub/dir" = StrV p)
        \/ (Str.contains ":" p = false
            /\ exists R rest,
                 discover_git fs_monorepo (Path p) = Ok (Some R)
                 /\ StrV "git+file:///r?dir=sub/dir"
                    = StrV ("git+file://" ++ Pathlib.str R ++ rest))
        \/ (Str.contains ":" p = false
            /\ discover_git fs_monorepo (Path p) = Ok None
            /\ StrV "git+file:///r?dir=sub/dir" = PathV (Path p)))
    /\ forall s, StrV "git+file:///r?dir=sub/dir" = StrV s ->
                 Str.contains ":" s = true.
Proof.
  apply (parse_location_kinds fs_monorepo host_box ".#web" None
           (Flake.mk (StrV "git+file:///r?dir=sub/dir") (Flake.quoted "web"))).
  reflexivity.
Defined.

Lemma parse_not_a_directory_witness :
  discover_git fs_monorepo (Path "/r/sub/dir/flake.nix") = Ok None
  /\ Flake.parse fs_monorepo host_box "/r/sub/dir/flake.nix#web" None
     = Ok (Flake.mk (PathV (Path "/r/sub/dir/flake.nix")) (Flake.quoted "web")).
Proof.
  apply (proj1 (parse_not_a_directory fs_monorepo host_box
                  "/r/sub/dir/flake.nix#web" None "/r/sub/dir/flake.nix" "web" "web"
                  (Path "/r/sub/dir/flake.nix") eq_refl eq_refl eq_refl eq_refl)).
  reflexivity.
Defined.

Lemma printed_form_is_refused_witness :
  Flake.parse fs_loop host_unreachable
    (Flake.__str__ (Flake.mk (StrV "git+file:///r?dir=sub/dir") (Flake.quoted "web")))
    (Some tt)
  = Raise (AssertionError
             ("got no matches for "
              ++ Flake.__str__ (Flake.mk (StrV "git+file:///r?dir=sub/dir")
                                  (Flake.quoted "web")))).
Proof.
  apply (printed_form_is_refused fs_monorepo host_box ".#web" None
           (Flake.mk (StrV "git+file:///r?dir=sub/dir") (Flake.quoted "web"))
           eq_refl fs_loop host_unreachable (Some tt)).
Defined.

Lemma reparse_unquoted_form_witness :
  exists name,
    Flake.quoted "web" = Flake.quoted name
    /\ (occurs Str.hash name = false ->
        occurs Str.dquote name = false ->
        forall fs' (host' : Host unit) target',
          Flake.parse fs' host' ("git+file:///r?dir=sub/dir" ++ "#" ++ name) target'
          = Ok (Flake.mk (StrV "git+file:///r?dir=sub/dir") (Flake.quoted "web"))).
Proof.
  apply (reparse_unquoted_form fs_monorepo host_box ".#web" None
           (Flake.mk (StrV "git+file:///r?dir=sub/dir") (Flake.quoted "web"))
           "git+file:///r?dir=sub/dir"); reflexivity.
Defined.

Lemma parse_probe_exception_witness :
  get_hostname host_unreachable (Some tt) = Raise OSError
  /\ Flake.parse fs_monorepo host_unreachable "github:foo/bar" (Some tt)
     = Raise OSError.
Proof.
  apply (parse_probe_exception fs_monorepo host_unreachable "github:foo/bar" tt
           "github:foo/bar" OSError); reflexivity.
Defined.

(** * Stripping *)

Lemma lstrip_head (s : string) :
  Str.lstrip s = ""
  \/ exists c r, Str.lstrip s = String c r /\ Str.isspace c = false.
Proof.
  induction s as [|c s IH]; [now left|].
  cbn [Str.lstrip]. destruct (Str.isspace c) eqn:E; [exact IH|].
  right. now exists c, s.
Qed.

Lemma rstrip_keeps_head (c : ascii) (r : string) :
  Str.isspace c = false -> exists r', Str.rstrip (String c r) = String c r'.
Proof.
  intros H. cbn [Str.rstrip]. destruct (Str.rstrip r); [rewrite H|]; eauto.
Qed.

Lemma rstrip_idempotent (s : string) : Str.rstrip (Str.rstrip s) = Str.rstrip s.
Proof.
  induction s as [|c s IH]; [reflexivity|].
  cbn [Str.rstrip]. destruct (Str.rstrip s) as [|d r] eqn:E.
  - destruct (Str.isspace c) eqn:Hc; [reflexivity|].
    cbn [Str.rstrip]. now rewrite Hc.
  - cbn [Str.rstrip]. cbn [Str.rstrip] in IH. now rewrite IH.
Qed.

(** A stripped text has no white space at either end: stripping it again,
    on the left or on the right, changes nothing. *)
Lemma strip_fixed (s : string) :
  Str.lstrip (Str.strip s) = Str.strip s /\ Str.rstrip (Str.strip s) = Str.strip s.
Proof.
  unfold Str.strip. split; [|apply rstrip_idempotent].
  destruct (lstrip_head s) as [-> | (c & r & -> & Hc)]; [reflexivity|].
  destruct (rstrip_keeps_head c r Hc) as [r' ->].
  cbn [Str.lstrip]. now rewrite Hc.
Qed.

(** A text of white space only strips to nothing. *)
Lemma strip_blank (s : string) : all_in Str.isspace s = true -> Str.strip s = "".
Proof.
  unfold Str.strip. intros H.
  replace (Str.lstrip s) with "" ; [reflexivity|].
  induction s as [|c s IH]; [reflexivity|].
  simpl in H. apply andb_prop in H. destruct H as [Hc Hs].
  cbn [Str.lstrip]. rewrite Hc. now apply IH.
Qed.

Lemma join_app (sep : string) (xs ys : list string) :
  xs <> [] -> ys <> [] ->
  Str.join sep (xs ++ ys) = Str.join sep xs ++ sep ++ Str.join sep ys.
Proof.
  unfold Str.join. intros Hx Hy.
  induction xs as [|x xs IH]; [congruence|].
  destruct xs as [|x' xs].
  - destruct ys as [|y ys]; [congruence|]. reflexivity.
  - change (String.concat sep ((x :: x' :: xs) ++ ys))
      with (x ++ sep ++ String.concat sep ((x' :: xs) ++ ys)).
    rewrite IH by discriminate.
    change (String.concat sep (x :: x' :: xs))
      with (x ++ sep ++ String.concat sep (x' :: xs)).
    now rewrite !append_assoc.
Qed.

Section Values.
Context {Remote : Type}.
Implicit Types (fs : FileSystem) (host : Host Remote) (target : option Remote).

(** X13.  A name that [get_hostname] obtains from a remote host is the
    captured output stripped: it has no white space at either end. *)
Theorem get_hostname_stripped host remote h :
  get_hostname host (Some remote) = Ok (Some h) ->
  exists out,
    run_wrapper host ["uname"; "-n"] true remote = Ok {| stdout := Some out |}
    /\ h = Str.strip out
    /\ Str.lstrip h = h
    /\ Str.rstrip h = h.
Proof.
  unfold get_hostname.
  destruct (run_wrapper host ["uname"; "-n"] true remote) as [[[out|]]|e];
    cbn [bind try_except stdout_strip stdout].
  - intros [= <-]. exists out. split; [reflexivity|]. split; [reflexivity|].
    apply strip_fixed.
  - cbn. discriminate.
  - destruct (probe_failure e); discriminate.
Qed.

(** X14.  When the attribute part is empty and the remote host answers
    the probe with white space only, the configuration name is [default]:
    a blank host name counts as none. *)
Theorem blank_hostname_is_default host remote out :
  run_wrapper host ["uname"; "-n"] true remote = Ok {| stdout := Some out |} ->
  all_in Str.isspace out = true ->
  get_hostname host (Some remote) = Ok (Some "")
  /\ Flake.config_name host "" (Some remote) = Ok "default".
Proof.
  intros Hrun Hblank.
  assert (Hh : get_hostname host (Some remote) = Ok (Some "")).
  { unfold get_hostname. rewrite Hrun.
    cbn [bind try_except stdout_strip stdout]. now rewrite (strip_blank _ Hblank). }
  split; [exact Hh|]. unfold Flake.config_name. cbn [Str.truthy].
  now rewrite Hh.
Qed.

(** X15.  [Flake.from_arg] returns no reference in exactly two cases: the
    argument is [False], or it is neither a text nor a boolean and the test
    whether the default manifest [/etc/nixos/flake.nix] exists returns
    [False].  In every other case it returns a reference or raises. *)
Theorem from_arg_none_iff fs path_exists host arg target :
  Flake.from_arg fs path_exists host arg target = Ok None <->
  arg = ArgFalse
  \/ (arg = ArgOther /\ path_exists "/etc/nixos/flake.nix" = Ok false).
Proof.
  unfold Flake.from_arg. destruct arg as [s| | |].
  - destruct (Flake.parse fs host s target); cbn [bind]; split;
      [discriminate | intros [H | [H _]]; discriminate H
      | discriminate | intros [H | [H _]]; discriminate H].
  - destruct (Flake.parse fs host "." target); cbn [bind]; split;
      [discriminate | intros [H | [H _]]; discriminate H
      | discriminate | intros [H | [H _]]; discriminate H].
  - split; [now left | reflexivity].
  - change (Pathlib.str (Path "/etc/nixos/flake.nix")) with "/etc/nixos/flake.nix".
    destruct (path_exists "/etc/nixos/flake.nix") as [[|]|e]; cbn [bind].
    + split; [|intros [H | [_ H]]; discriminate H].
      destruct (resolve fs (Path "/etc/nixos/flake.nix")) as [d|e]; cbn [bind];
        [|discriminate].
      destruct (Flake.parse fs host (Pathlib.str (parent d)) target); cbn [bind];
        discriminate.
    + split; [intros _; now right | reflexivity].
    + split; [discriminate | intros [H | [_ H]]; discriminate H].
Qed.

(** X16.  Attribute paths compose: extending the segments given to
    [to_attr] appends a dot and the further segments joined by dots, for
    [Flake.to_attr] and for [BuildAttr.to_attr] alike. *)
Theorem to_attr_app (self : Flake.t) (legacy : BuildAttr.t) (xs ys : list string) :
  xs <> [] -> ys <> [] ->
  Flake.to_attr self (xs ++ ys)
  = Flake.to_attr self xs ++ "." ++ Str.join "." ys
  /\ BuildAttr.to_attr legacy (xs ++ ys)
     = BuildAttr.to_attr legacy xs ++ "." ++ Str.join "." ys.
Proof.
  intros Hx Hy. unfold Flake.to_attr, BuildAttr.to_attr.
  rewrite (join_app "." xs ys Hx Hy). now rewrite !append_assoc.
Qed.

End Values.

(** X17.  In [BuildAttr.from_arg] an empty text counts as absent.  With
    neither an attribute nor a file the result is the fallback
    [<nixpkgs/nixos>] without attribute; otherwise the path is the [Path] of
    the file, or of [default.nix] when no file is given.  In both cases
    [to_attr] of the result puts the attribute and a dot before the joined
    segments when the attribute is not empty, and nothing otherwise. *)
Theorem build_attr_from_arg (attr file : option string) (attrs : list string) :
  (BuildAttr.truthy attr = false -> BuildAttr.truthy file = false ->
   BuildAttr.from_arg attr file = BuildAttr.mk (StrV "<nixpkgs/nixos>") None)
  /\ (BuildAttr.truthy attr || BuildAttr.truthy file = true ->
      BuildAttr.from_arg attr file
      = BuildAttr.mk
          (PathV (Path (if BuildAttr.truthy file
                        then match file with Some f => f | None => "" end
                        else "default.nix")))
          attr)
  /\ BuildAttr.to_attr (BuildAttr.from_arg attr file) attrs
     = (if BuildAttr.truthy attr
        then match attr with Some a => a ++ "." | None => "" end
        else "")
       ++ Str.join "." attrs.
Proof.
  unfold BuildAttr.from_arg, BuildAttr.to_attr, BuildAttr.truthy, Str.or_else.
  destruct attr as [[|c a]|], file as [[|d f]|]; cbn; repeat split;
    try reflexivity; try discriminate.
Qed.

(** X18.  The labels of the actions are pairwise distinct: an action is
    determined by its printed form, and [Action.values()] lists thirteen
    labels without repetition. *)
Theorem action_labels_distinct :
  (forall a b, Action.__str__ a = Action.__str__ b -> a = b)
  /\ NoDup Action.values
  /\ List.length Action.values = 13
  /\ forall a, In (Action.value a) Action.values.
Proof.
  split; [|split; [|split]].
  - intros a b H. destruct a, b; try reflexivity; discriminate H.
  - unfold Action.values, Action.members. cbn [map Action.value].
    repeat (constructor; [cbn [In]; intros H;
      repeat (destruct H as [H | H]; [discriminate H|]); exact H|]).
    constructor.
  - reflexivity.
  - intros a. unfold Action.values. apply in_map.
    destruct a; cbn; tauto.
Qed.

(** X19.  For a name that is a single path component other than [system],
    [Profile.from_arg] asks for the directory of the named profiles to be
    created, raises what that raises, and otherwise returns the profile
    whose path is that directory followed by the name. *)
Theorem profile_from_arg_component (mkdir : string -> outcome unit) (name : string) :
  component name = true ->
  name <> "system" ->
  exists p,
    Pathlib.str p = profiles_dir ++ "/" ++ name
    /\ parent p = Path profiles_dir
    /\ is_relative_to p (Path profiles_dir) = true
    /\ Profile.from_arg mkdir name
       = (_ <- mkdir profiles_dir ;; Ok (Profile.mk name p)).
Proof.
  intros Hc Hne.
  set (p := mkPath "/" ["nix"; "var"; "nix"; "profiles"; "system-profiles"; name]).
  assert (Hwf : well_formed p).
  { split; [right; now left|]. cbn [tail p forallb]. now rewrite Hc. }
  assert (Hjoin : joinpath (Path profiles_dir) name = p).
  { unfold joinpath, with_segments. cbn [posixpath_join_all fold_left].
    change (Pathlib.str (Path profiles_dir))
      with ("/nix/var/nix/profiles/" ++ "system-profiles").
    rewrite (posixpath_join_component _ "system-profiles" name eq_refl Hc).
    rewrite <- (Path_str p Hwf). reflexivity. }
  exists p. split; [reflexivity|]. split; [reflexivity|]. split.
  - change (Path profiles_dir) with (mkPath (root p) (firstn 5 (tail p))).
    apply is_relative_to_ancestor.
  - unfold Profile.from_arg. fold profiles_dir.
    rewrite (proj2 (String.eqb_neq name "system") Hne), Hjoin. reflexivity.
Qed.

(** X20.  A profile name that starts with [/] replaces the profiles
    directory altogether: the path of the profile is the [Path] of the name,
    and the directory asked for is the parent of that path. *)
Theorem profile_from_arg_absolute (mkdir : string -> outcome unit) (name : string) :
  Str.startswith name "/" = true ->
  Profile.from_arg mkdir name
  = (_ <- mkdir (Pathlib.str (parent (Path name))) ;;
     Ok (Profile.mk name (Path name))).
Proof.
  intros Hs. unfold Profile.from_arg.
  assert (Hne : String.eqb name "system" = false).
  { destruct name as [|c n]; [discriminate Hs|].
    unfold Str.startswith in Hs. cbn [String.prefix] in Hs.
    destruct (ascii_dec "/" c) as [<-|]; [reflexivity|discriminate Hs]. }
  rewrite Hne. unfold joinpath, with_segments.
  cbn [posixpath_join_all fold_left]. unfold posixpath_join. now rewrite Hs.
Qed.

(** ** The statements at concrete inputs *)

Lemma get_hostname_stripped_witness :
  exists out,
    run_wrapper host_nameless ["uname"; "-n"] true tt = Ok {| stdout := Some out |}
    /\ "web1" = Str.strip out
    /\ Str.lstrip "web1" = "web1"
    /\ Str.rstrip "web1" = "web1".
Proof.
  apply (get_hostname_stripped host_nameless tt "web1"). reflexivity.
Defined.

Lemma blank_hostname_is_default_witness :
  get_hostname host_blank (Some tt) = Ok (Some "")
  /\ Flake.config_name host_blank "" (Some tt) = Ok "default".
Proof.
  apply (blank_hostname_is_default host_blank tt "   "); reflexivity.
Defined.

Lemma from_arg_none_iff_witness :
  Flake.from_arg fs_monorepo (fun _ => Ok false) host_box ArgOther None = Ok None.
Proof.
  apply (proj2 (from_arg_none_iff fs_monorepo (fun _ => Ok false) host_box
                  ArgOther None)).
  right. split; reflexivity.
Defined.

Lemma to_attr_app_witness :
  Flake.to_attr (Flake.mk (StrV "github:foo/bar") (Flake.quoted "web"))
    (["config"; "system"] ++ ["build"; "toplevel"])
  = Flake.to_attr (Flake.mk (StrV "github:foo/bar") (Flake.quoted "web"))
      ["config"; "system"]
    ++ "." ++ Str.join "." ["build"; "toplevel"]
  /\ BuildAttr.to_attr (BuildAttr.mk (StrV "<nixpkgs/nixos>") None)
       (["config"; "system"] ++ ["build"; "toplevel"])
     = BuildAttr.to_attr (BuildAttr.mk (StrV "<nixpkgs/nixos>") None)
         ["config"; "system"]
       ++ "." ++ Str.join "." ["build"; "toplevel"].
Proof.
  apply (to_attr_app (Flake.mk (StrV "github:foo/bar") (Flake.quoted "web"))
           (BuildAttr.mk (StrV "<nixpkgs/nixos>") None)); discriminate.
Defined.

Lemma build_attr_from_arg_witness :
  BuildAttr.from_arg (Some "") None = BuildAttr.mk (StrV "<nixpkgs/nixos>") None.
Proof.
  apply (proj1 (build_attr_from_arg (Some "") None [])); reflexivity.
Defined.

Lemma action_labels_distinct_witness : Action.DRY_RUN = Action.DRY_RUN.
Proof.
  apply (proj1 action_labels_distinct Action.DRY_RUN Action.DRY_RUN). reflexivity.
Defined.

Lemma profile_from_arg_component_witness :
  exists p,
    Pathlib.str p = profiles_dir ++ "/" ++ "test"
    /\ parent p = Path profiles_dir
    /\ is_relative_to p (Path profiles_dir) = true
    /\ Profile.from_arg mkdir_denied "test"
       = (_ <- mkdir_denied profiles_dir ;; Ok (Profile.mk "test" p)).
Proof.
  apply (profile_from_arg_component mkdir_denied "test"); [reflexivity|discriminate].
Defined.

Lemma profile_from_arg_absolute_witness :
  Profile.from_arg mkdir_ok "/tmp/x"
  = (_ <- mkdir_ok (Pathlib.str (parent (Path "/tmp/x"))) ;;
     Ok (Profile.mk "/tmp/x" (Path "/tmp/x"))).
Proof.
  apply (profile_from_arg_absolute mkdir_ok "/tmp/x"). reflexivity.
Defined.
